(** * ActiveCampaign CRM extractor: storage orchestration and deduplication

    A shallow embedding of the storage service of the extension: the class
    [CRMStorageOrchestrator] (the second unit of
    [src/background/service-worker.ts]), the record types it stores (the
    second unit of [src/shared/message-types.ts]) and the constants it reads
    ([STORAGE_KEYS], [EXTRACTION_CONFIG], [DEFAULT_STORAGE_STATE]), followed
    by the properties of the deduplication merge, the lock manager and the
    read-modify-write protocol.

    Conventions of the embedding:
    - a JavaScript [number] holding a timestamp is a [Z] (no [NaN]);
    - a JavaScript [Map<string, T>] is an association list in insertion
      order, because [Array.from(map.values())] exposes that order;
    - asynchronous code is a state-and-exception monad over a [World] that
      holds the two [chrome.storage.local] keys, the clock read by
      [Date.now()], an oracle for the outcome and the latency of each
      storage call, and a log of the effects performed;
    - calls of the service run one after the other: the interleaving of
      two concurrent callers at their suspension points is not modelled. *)

From Stdlib Require Import String List ZArith NArith QArith Bool Lia Permutation.
Import ListNotations.

Set Implicit Arguments.
Open Scope string_scope.
Open Scope list_scope.

(* ================================================================= *)
(** * Data model ([types.ts]) *)
(* ================================================================= *)

Record ACContact := {
  contact_id : string;
  contact_name : string;
  contact_email : string;
  contact_phone : string;
  contact_tags : list string;
  contact_owner : string;
  contact_extractedAt : Z;
  contact_sourceUrl : string
}.

Record ACDeal := {
  deal_id : string;
  deal_title : string;
  deal_value : Q;
  deal_currency : string;
  deal_pipeline : string;
  deal_stage : string;
  deal_primaryContact : string;
  deal_owner : string;
  deal_extractedAt : Z;
  deal_sourceUrl : string
}.

Inductive TaskType := call | email | meeting | todo.

Inductive LinkedKind := linked_contact | linked_deal.

Record LinkedEntity := {
  linked_type : LinkedKind;
  linked_id : string;
  linked_name : string
}.

Record ACTask := {
  task_id : string;
  task_type : TaskType;
  task_title : string;
  task_dueDate : string;
  task_assignee : string;
  task_linkedEntity : option LinkedEntity;
  task_extractedAt : Z;
  task_sourceUrl : string
}.

(** [type EntityRecord = ACContact | ACDeal | ACTask]: what the storage
    layer reads of a record is its [id] and its [extractedAt]. *)
Class EntityRecord (T : Type) := {
  id : T -> string;
  extractedAt : T -> Z
}.

#[export] Instance ACContact_record : EntityRecord ACContact :=
  {| id := contact_id; extractedAt := contact_extractedAt |}.
#[export] Instance ACDeal_record : EntityRecord ACDeal :=
  {| id := deal_id; extractedAt := deal_extractedAt |}.
#[export] Instance ACTask_record : EntityRecord ACTask :=
  {| id := task_id; extractedAt := task_extractedAt |}.

Record ACStorageSchema := {
  contacts : list ACContact;
  deals : list ACDeal;
  tasks : list ACTask;
  lastSync : Z;
  syncInProgress : bool
}.

Record StorageOperationResult (T : Type) := {
  success : bool;
  payload : option T;
  errorMessage : option string
}.

(** [type EntityType = 'contacts' | 'deals' | 'tasks'] *)
Inductive EntityType := Contacts | Deals | Tasks.

Definition RecordOf (entityType : EntityType) : Type :=
  match entityType with
  | Contacts => ACContact
  | Deals => ACDeal
  | Tasks => ACTask
  end.

#[export] Instance RecordOf_record (entityType : EntityType)
  : EntityRecord (RecordOf entityType) :=
  match entityType with
  | Contacts => ACContact_record
  | Deals => ACDeal_record
  | Tasks => ACTask_record
  end.

(** [document[entityType]] *)
Definition getCollection (entityType : EntityType) (d : ACStorageSchema)
  : list (RecordOf entityType) :=
  match entityType with
  | Contacts => contacts d
  | Deals => deals d
  | Tasks => tasks d
  end.

(** [{ ...document, [entityType]: records }] *)
Definition setCollection (entityType : EntityType)
  : list (RecordOf entityType) -> ACStorageSchema -> ACStorageSchema :=
  match entityType with
  | Contacts => fun l d =>
      {| contacts := l; deals := deals d; tasks := tasks d;
         lastSync := lastSync d; syncInProgress := syncInProgress d |}
  | Deals => fun l d =>
      {| contacts := contacts d; deals := l; tasks := tasks d;
         lastSync := lastSync d; syncInProgress := syncInProgress d |}
  | Tasks => fun l d =>
      {| contacts := contacts d; deals := deals d; tasks := l;
         lastSync := lastSync d; syncInProgress := syncInProgress d |}
  end.

(** [{ ...document, lastSync: t }] and [{ ...document, syncInProgress: b }] *)
Definition setLastSync (t : Z) (d : ACStorageSchema) : ACStorageSchema :=
  {| contacts := contacts d; deals := deals d; tasks := tasks d;
     lastSync := t; syncInProgress := syncInProgress d |}.

Definition setSyncInProgress (b : bool) (d : ACStorageSchema) : ACStorageSchema :=
  {| contacts := contacts d; deals := deals d; tasks := tasks d;
     lastSync := lastSync d; syncInProgress := b |}.

(* ================================================================= *)
(** * Constants ([constants.ts]) *)
(* ================================================================= *)

Definition RETRY_ATTEMPTS : nat := 3.
Definition RETRY_DELAY_MS : Z := 1000.

Definition DEFAULT_STORAGE_STATE : ACStorageSchema :=
  {| contacts := []; deals := []; tasks := [];
     lastSync := 0; syncInProgress := false |}.

(** [private lockTimeout = 30000] *)
Definition lockTimeout : Z := 30000.

(* ================================================================= *)
(** * The insertion-ordered [Map<string, T>] *)
(* ================================================================= *)

Module JsMap.
Section Ops.
Variable T : Type.

Definition t := list (string * T).

(** [new Map()] *)
Definition empty : t := [].

(** [m.get(k)]: [None] stands for [undefined]. *)
Fixpoint get (m : t) (k : string) : option T :=
  match m with
  | [] => None
  | (k', v) :: m' => if String.eqb k' k then Some v else get m' k
  end.

(** [m.set(k, v)]: an existing key keeps its position and takes the new
    value, a new key goes to the end. *)
Fixpoint set (m : t) (k : string) (v : T) : t :=
  match m with
  | [] => [(k, v)]
  | (k', v') :: m' =>
      if String.eqb k' k then (k, v) :: m' else (k', v') :: set m' k v
  end.

(** [Array.from(m.values())] and [Array.from(m.keys())] *)
Definition values (m : t) : list T := map snd m.
Definition keys (m : t) : list string := map fst m.
End Ops.
End JsMap.

(* ================================================================= *)
(** * The deduplication engine *)
(* ================================================================= *)

Section Deduplication.
Context {T : Type} `{EntityRecord T}.

(** Body of the first loop: [recordMap.set(record.id, record)]. *)
Definition seedStep (recordMap : JsMap.t T) (record : T) : JsMap.t T :=
  JsMap.set recordMap (id record) record.

(** Body of the second loop. A stored record is an object, hence truthy:
    [!existingRecord] holds exactly when the key is absent. *)
Definition mergeStep (recordMap : JsMap.t T) (newRecord : T) : JsMap.t T :=
  match JsMap.get recordMap (id newRecord) with
  | None => JsMap.set recordMap (id newRecord) newRecord
  | Some existingRecord =>
      if (extractedAt newRecord >? extractedAt existingRecord)%Z
      then JsMap.set recordMap (id newRecord) newRecord
      else recordMap
  end.

Definition performDeduplication (existingRecords newRecords : list T) : list T :=
  let recordMap := JsMap.empty T in
  let recordMap := fold_left seedStep existingRecords recordMap in
  let recordMap := fold_left mergeStep newRecords recordMap in
  JsMap.values recordMap.

(** [records.filter(record => record.id !== recordId)] of [removeRecord]. *)
Definition withoutId (recordId : string) (records : list T) : list T :=
  filter (fun record => negb (String.eqb (id record) recordId)) records.
End Deduplication.

(* ================================================================= *)
(** * The world of the storage service *)
(* ================================================================= *)

(** What a rejected promise carries: an [Error] with its message, or some
    other value (for which [error instanceof Error] is false). *)
Inductive JsThrown := ErrorObject (message : string) | OtherThrown.

(** [error instanceof Error ? error.message : fallback] *)
Definition messageOr (fallback : string) (error : JsThrown) : string :=
  match error with
  | ErrorObject message => message
  | OtherThrown => fallback
  end.

(** [STORAGE_KEYS.CRM_DATA] and [STORAGE_KEYS.SYNC_LOCK] *)
Inductive StorageKey := CRM_DATA | SYNC_LOCK.

(** The effects a run leaves in the log, oldest first. The flag of a storage
    call tells whether its promise was fulfilled. *)
Inductive Effect :=
| StorageGet (key : StorageKey) (fulfilled : bool)
| StorageSet (key : StorageKey) (fulfilled : bool)
| StorageRemove (key : StorageKey) (fulfilled : bool)
| SetTimeout (milliseconds : Z)
| ConsoleWarn (message : string).

(** How the store answers one call: it may reject, and it takes some time. *)
Record Reply := {
  rejection : option JsThrown;
  latency : N
}.

Definition promptReply : Reply := {| rejection := None; latency := 0 |}.

Record World := {
  crm_extracted_data : option ACStorageSchema;  (* value under CRM_DATA *)
  sync_lock_timestamp : option Z;               (* value under SYNC_LOCK *)
  clock : Z;                                    (* Date.now() *)
  oracle : list Reply;                          (* answers to the coming storage calls *)
  effects : list Effect
}.

Inductive Outcome (A : Type) :=
| Returned (a : A)
| Thrown (error : JsThrown).
Arguments Thrown {A} error.

(** An [async] function body. *)
Definition Async (A : Type) : Type := World -> Outcome A * World.

Definition ret {A} (a : A) : Async A := fun w => (Returned a, w).

Definition bind {A B} (m : Async A) (k : A -> Async B) : Async B :=
  fun w =>
    match m w with
    | (Returned a, w') => k a w'
    | (Thrown error, w') => (Thrown error, w')
    end.

(** [try { body } catch (error) { handler }] *)
Definition tryCatch {A} (body : Async A) (handler : JsThrown -> Async A) : Async A :=
  fun w =>
    match body w with
    | (Returned a, w') => (Returned a, w')
    | (Thrown error, w') => handler error w'
    end.

Declare Scope async_scope.
Delimit Scope async_scope with async.
Notation "x <- m ;; k" := (bind m (fun x => k))
  (at level 100, m at next level, right associativity) : async_scope.
Notation "m ;; k" := (bind m (fun _ => k))
  (at level 100, right associativity) : async_scope.
Open Scope async_scope.

Definition logEffect (e : Effect) (w : World) : World :=
  {| crm_extracted_data := crm_extracted_data w;
     sync_lock_timestamp := sync_lock_timestamp w;
     clock := clock w; oracle := oracle w;
     effects := effects w ++ [e] |}.

(** The store takes the next answer of the oracle (a prompt fulfilment once
    the oracle is used up) and the clock moves on by its latency. *)
Definition awaitReply (w : World) : Reply * World :=
  let (reply, rest) :=
    match oracle w with
    | [] => (promptReply, [])
    | reply :: rest => (reply, rest)
    end in
  (reply,
   {| crm_extracted_data := crm_extracted_data w;
      sync_lock_timestamp := sync_lock_timestamp w;
      clock := (clock w + Z.of_N (latency reply))%Z; oracle := rest;
      effects := effects w |}).

(** One call of [chrome.storage.local]: a rejected call leaves the store as
    it was, a fulfilled one commits. *)
Definition storageCall {A} (effect : bool -> Effect) (commit : World -> A * World)
  : Async A :=
  fun w =>
    let (reply, w1) := awaitReply w in
    match rejection reply with
    | Some error => (Thrown error, logEffect (effect false) w1)
    | None => let (a, w2) := commit w1 in (Returned a, logEffect (effect true) w2)
    end.

Definition writeData (d : option ACStorageSchema) (w : World) : World :=
  {| crm_extracted_data := d;
     sync_lock_timestamp := sync_lock_timestamp w;
     clock := clock w; oracle := oracle w; effects := effects w |}.

Definition writeLock (l : option Z) (w : World) : World :=
  {| crm_extracted_data := crm_extracted_data w;
     sync_lock_timestamp := l;
     clock := clock w; oracle := oracle w; effects := effects w |}.

(** [chrome.storage.local.get(STORAGE_KEYS.CRM_DATA)] then [[CRM_DATA]] *)
Definition storageGetData : Async (option ACStorageSchema) :=
  storageCall (StorageGet CRM_DATA) (fun w => (crm_extracted_data w, w)).

(** [chrome.storage.local.set({ [STORAGE_KEYS.CRM_DATA]: d })] *)
Definition storageSetData (d : ACStorageSchema) : Async unit :=
  storageCall (StorageSet CRM_DATA) (fun w => (tt, writeData (Some d) w)).

(** [chrome.storage.local.get(STORAGE_KEYS.SYNC_LOCK)] then [[SYNC_LOCK]] *)
Definition storageGetLock : Async (option Z) :=
  storageCall (StorageGet SYNC_LOCK) (fun w => (sync_lock_timestamp w, w)).

(** [chrome.storage.local.set({ [STORAGE_KEYS.SYNC_LOCK]: t })] *)
Definition storageSetLock (t : Z) : Async unit :=
  storageCall (StorageSet SYNC_LOCK) (fun w => (tt, writeLock (Some t) w)).

(** [chrome.storage.local.remove(STORAGE_KEYS.SYNC_LOCK)] *)
Definition storageRemoveLock : Async unit :=
  storageCall (StorageRemove SYNC_LOCK) (fun w => (tt, writeLock None w)).

(** [Date.now()] *)
Definition dateNow : Async Z := fun w => (Returned (clock w), w).

(** [console.warn(message)] *)
Definition consoleWarn (message : string) : Async unit :=
  fun w => (Returned tt, logEffect (ConsoleWarn message) w).

(** [new Promise(resolve => setTimeout(resolve, milliseconds))] *)
Definition delayExecution (milliseconds : Z) : Async unit :=
  fun w =>
    (Returned tt,
     logEffect (SetTimeout milliseconds)
       {| crm_extracted_data := crm_extracted_data w;
          sync_lock_timestamp := sync_lock_timestamp w;
          clock := (clock w + milliseconds)%Z; oracle := oracle w;
          effects := effects w |}).

(* ================================================================= *)
(** * [CRMStorageOrchestrator] *)
(* ================================================================= *)

Definition retrieveAllData : Async (StorageOperationResult ACStorageSchema) :=
  tryCatch
    (storedData <- storageGetData ;;
     ret {| success := true;
            payload := Some match storedData with
                            | Some d => d
                            | None => DEFAULT_STORAGE_STATE
                            end;
            errorMessage := None |})
    (fun error =>
       ret {| success := false;
              payload := None;
              errorMessage := Some (messageOr "Failed to retrieve storage data" error) |}).

(** On success the payload is [undefined], the one value of [void]. *)
Definition persistData (updatedData : ACStorageSchema)
  : Async (StorageOperationResult unit) :=
  tryCatch
    (storageSetData updatedData ;;
     ret {| success := true; payload := Some tt; errorMessage := None |})
    (fun error =>
       ret {| success := false;
              payload := None;
              errorMessage := Some (messageOr "Failed to persist data" error) |}).

(** [existingLock && (currentTime - existingLock) < this.lockTimeout]: a
    number is truthy when it is defined and not zero. *)
Definition lockIsHeld (existingLock : option Z) (currentTime : Z) : bool :=
  match existingLock with
  | Some existingLock =>
      negb (existingLock =? 0)%Z && (currentTime - existingLock <? lockTimeout)%Z
  | None => false
  end.

Definition acquireSyncLock : Async bool :=
  tryCatch
    (currentData <- retrieveAllData ;;
     match success currentData, payload currentData with
     | true, Some currentPayload =>
         existingLock <- storageGetLock ;;
         currentTime <- dateNow ;;
         if lockIsHeld existingLock currentTime then ret false
         else
           storageSetLock currentTime ;;
           let updatedData := setSyncInProgress true currentPayload in
           persistData updatedData ;;
           ret true
     | _, _ => ret false
     end)
    (fun _ => ret false).

Definition releaseSyncLock : Async unit :=
  tryCatch
    (storageRemoveLock ;;
     currentData <- retrieveAllData ;;
     match success currentData, payload currentData with
     | true, Some currentPayload =>
         let updatedData := setSyncInProgress false currentPayload in
         persistData updatedData ;;
         ret tt
     | _, _ => ret tt
     end)
    (fun _ => consoleWarn "Failed to release sync lock").

(** What one turn of the [while] loop decides: [continue] with the new
    [attemptCount], or [return]. *)
Inductive LoopStep (R : Type) :=
| Continue (attemptCount : nat)
| Return (result : R).
Arguments Continue {R} attemptCount.

Section Insert.
Variable entityType : EntityType.
Variable newRecords : list (RecordOf entityType).

(** The [try]/[catch] statement inside the loop. The only statement that
    follows [attemptCount++] in the [try] block is [delayExecution], which
    does not throw, so the handler sees the count the turn started with. *)
Definition insertAttempt (maxRetries attemptCount : nat)
  : Async (LoopStep (StorageOperationResult Z)) :=
  tryCatch
    (lockAcquired <- acquireSyncLock ;;
     if negb lockAcquired then
       delayExecution RETRY_DELAY_MS ;;
       ret (Continue (S attemptCount))
     else
       currentData <- retrieveAllData ;;
       match success currentData, payload currentData with
       | true, Some currentPayload =>
           let existingRecords := getCollection entityType currentPayload in
           let deduplicatedRecords :=
             performDeduplication existingRecords newRecords in
           currentTime <- dateNow ;;
           let updatedData :=
             setLastSync currentTime
               (setCollection entityType deduplicatedRecords currentPayload) in
           persistResult <- persistData updatedData ;;
           releaseSyncLock ;;
           if negb (success persistResult) then
             ret (Return {| success := false;
                            payload := None;
                            errorMessage := errorMessage persistResult |})
           else
             let insertedCount :=
               (Z.of_nat (length deduplicatedRecords)
                - Z.of_nat (length existingRecords))%Z in
             ret (Return {| success := true;
                            payload := Some (Z.max 0 insertedCount);
                            errorMessage := None |})
       | _, _ =>
           releaseSyncLock ;;
           ret (Return {| success := false;
                          payload := None;
                          errorMessage :=
                            Some "Failed to retrieve current data for deduplication" |})
       end)
    (fun error =>
       releaseSyncLock ;;
       let attemptCount := S attemptCount in
       if (maxRetries <=? attemptCount)%nat then
         ret (Return {| success := false;
                        payload := None;
                        errorMessage :=
                          Some (messageOr "Insert operation failed after retries" error) |})
       else
         delayExecution RETRY_DELAY_MS ;;
         ret (Continue attemptCount)).

(** [while (attemptCount < maxRetries)]. Every turn that continues adds
    one to [attemptCount], so the loop is structural in
    [remaining = maxRetries - attemptCount]; [remaining = 0] is the exit
    of the loop. *)
Fixpoint insertLoop (maxRetries remaining attemptCount : nat)
  : Async (StorageOperationResult Z) :=
  match remaining with
  | O =>
      ret {| success := false;
             payload := None;
             errorMessage := Some "Failed to acquire sync lock after maximum retries" |}
  | S remaining' =>
      step <- insertAttempt maxRetries attemptCount ;;
      match step with
      | Continue attemptCount' => insertLoop maxRetries remaining' attemptCount'
      | Return result => ret result
      end
  end.

Definition insertRecordsWithDeduplication : Async (StorageOperationResult Z) :=
  let maxRetries := RETRY_ATTEMPTS in
  let attemptCount := 0%nat in
  insertLoop maxRetries (maxRetries - attemptCount) attemptCount.
End Insert.

Definition removeRecord (entityType : EntityType) (recordId : string)
  : Async (StorageOperationResult unit) :=
  tryCatch
    (currentData <- retrieveAllData ;;
     match success currentData, payload currentData with
     | true, Some currentPayload =>
         let existingRecords := getCollection entityType currentPayload in
         let filteredRecords := withoutId recordId existingRecords in
         if (length filteredRecords =? length existingRecords)%nat then
           ret {| success := false;
                  payload := None;
                  errorMessage := Some "Record not found" |}
         else
           let updatedData := setCollection entityType filteredRecords currentPayload in
           persistData updatedData
     | _, _ =>
         ret {| success := false;
                payload := None;
                errorMessage := Some "Failed to retrieve current data" |}
     end)
    (fun error =>
       ret {| success := false;
              payload := None;
              errorMessage := Some (messageOr "Delete operation failed" error) |}).

Definition clearAllRecords : Async (StorageOperationResult unit) :=
  tryCatch
    (storageSetData DEFAULT_STORAGE_STATE ;;
     ret {| success := true; payload := Some tt; errorMessage := None |})
    (fun error =>
       ret {| success := false;
              payload := None;
              errorMessage := Some (messageOr "Clear operation failed" error) |}).

(* ================================================================= *)
(** * Vocabulary of the properties *)
(* ================================================================= *)

Section RecordVocabulary.
Context {T : Type} `{EntityRecord T}.

Definition ids (records : list T) : list string := map id records.

(** No two records of the collection share an [id]. *)
Definition uniqueIds (records : list T) : Prop := NoDup (ids records).

Definition hasId (recordId : string) (record : T) : bool :=
  String.eqb (id record) recordId.

(** The first record of the collection that carries the id. *)
Definition recordWithId (recordId : string) (records : list T) : option T :=
  find (hasId recordId) records.

(** Every entry of the map sits under the id of its record. *)
Definition keyedById (m : JsMap.t T) : Prop :=
  Forall (fun entry => fst entry = id (snd entry)) m.

(** The entries a collection with unique ids produces. *)
Definition entriesOf (records : list T) : JsMap.t T :=
  map (fun record => (id record, record)) records.

(** What one incoming record does to the record stored under its id. *)
Definition newer (stored : option T) (incoming : T) : option T :=
  match stored with
  | None => Some incoming
  | Some existing =>
      if (extractedAt incoming >? extractedAt existing)%Z
      then Some incoming else Some existing
  end.


End RecordVocabulary.

(** A key goes to the end of the key order unless it is there already. *)
Definition appendNew (ks : list string) (k : string) : list string :=
  if in_dec string_dec k ks then ks else ks ++ [k].

(** The ids of a batch that a collection does not hold, each once, in the
    order in which the batch first mentions them. *)
Definition newIds (existing batch : list string) : list string :=
  fold_left appendNew
    (filter (fun i => negb (existsb (String.eqb i) existing)) batch) [].

Definition documentOrDefault (stored : option ACStorageSchema) : ACStorageSchema :=
  match stored with
  | Some d => d
  | None => DEFAULT_STORAGE_STATE
  end.

(** The uniqueness invariant of the data model, on a document and on the
    store. *)
Definition documentHasUniqueIds (d : ACStorageSchema) : Prop :=
  forall entityType, uniqueIds (getCollection entityType d).

Definition storeHasUniqueIds (w : World) : Prop :=
  documentHasUniqueIds (documentOrDefault (crm_extracted_data w)).

(** The first [n] answers of the oracle are fulfilments. *)
Fixpoint fulfils (n : nat) (answers : list Reply) : bool :=
  match n, answers with
  | O, _ => true
  | S _, [] => true
  | S n', reply :: rest =>
      match rejection reply with
      | None => fulfils n' rest
      | Some _ => false
      end
  end.

(** The time that has passed once the first [n] answers have arrived. *)
Fixpoint elapsed (n : nat) (answers : list Reply) : Z :=
  match n, answers with
  | O, _ => 0
  | S _, [] => 0
  | S n', reply :: rest => Z.of_N (latency reply) + elapsed n' rest
  end.

Definition isDocumentWrite (e : Effect) : bool :=
  match e with
  | StorageSet CRM_DATA _ => true
  | _ => false
  end.

Definition isWrite (e : Effect) : bool :=
  match e with
  | StorageSet _ _ => true
  | StorageRemove _ _ => true
  | _ => false
  end.

Definition isTimeout (e : Effect) : bool :=
  match e with
  | SetTimeout _ => true
  | _ => false
  end.

(** The world a computation leaves, and what it hands back. *)
Definition worldAfter {A} (m : Async A) (w : World) : World := snd (m w).
Definition outcomeOf {A} (m : Async A) (w : World) : Outcome A := fst (m w).

(** The public mutations of the service, for sequences of calls. *)
Inductive Operation :=
| Insert (entityType : EntityType) (newRecords : list (RecordOf entityType))
| Remove (entityType : EntityType) (recordId : string)
| Clear.

Definition runOperation (op : Operation) (w : World) : World :=
  match op with
  | Insert entityType newRecords =>
      worldAfter (insertRecordsWithDeduplication entityType newRecords) w
  | Remove entityType recordId => worldAfter (removeRecord entityType recordId) w
  | Clear => worldAfter clearAllRecords w
  end.

Definition runOperations (ops : list Operation) (w : World) : World :=
  fold_left (fun w op => runOperation op w) ops w.

(** A property of the value under [CRM_DATA]; and a property of the stored
    document, read through get-or-default. *)
Definition underKey (D : option ACStorageSchema -> Prop) (w : World) : Prop :=
  D (crm_extracted_data w).

Definition storeSatisfies (Dd : ACStorageSchema -> Prop) (w : World) : Prop :=
  underKey (fun stored => Dd (documentOrDefault stored)) w.

(** Partial-correctness triples over [Async]; the computations are total
    functions, so a triple speaks about every run. *)
Definition triple {A} (P : World -> Prop) (m : Async A)
  (Q : Outcome A -> World -> Prop) : Prop :=
  forall w, P w -> Q (outcomeOf m w) (worldAfter m w).

(** The count [insertRecordsWithDeduplication] reports for a collection. *)
Definition insertedCountFor {T} `{EntityRecord T} (existingRecords newRecords : list T) : Z :=
  Z.max 0 (Z.of_nat (length (performDeduplication existingRecords newRecords))
           - Z.of_nat (length existingRecords)).

(** The time [acquireSyncLock] reads: the clock once the two reads are in. *)
Definition lockCheckTime (w : World) : Z := (clock w + elapsed 2 (oracle w))%Z.

(** The world once the store has answered the next call. *)
Definition replied (w : World) : World := snd (awaitReply w).

(** The world a retry delay leaves. *)
Definition afterDelay (w : World) : World :=
  worldAfter (delayExecution RETRY_DELAY_MS) w.


(** The fresh-lock condition in words. *)
Definition freshLockPresent (w : World) : Prop :=
  exists timestamp,
    sync_lock_timestamp w = Some timestamp /\ timestamp <> 0%Z
    /\ (lockCheckTime w - timestamp < lockTimeout)%Z.

(** A lock timestamp is stored whose age, at the time [acquireSyncLock]
    checks it, is strictly less than the timeout. *)
Definition lockWithinTimeout (w : World) : Prop :=
  exists timestamp,
    sync_lock_timestamp w = Some timestamp
    /\ (lockCheckTime w - timestamp < lockTimeout)%Z.

(** The effects of an acquisition that ends without the lock: reads, and
    at most a rejected write of the lock key. *)
Definition isLockProbe (e : Effect) : bool :=
  match e with
  | StorageGet _ _ => true
  | StorageSet SYNC_LOCK false => true
  | _ => false
  end.

(** The answer the store gives to the [k]-th coming call (from 0). *)
Definition answer (k : nat) (w : World) : Reply := nth k (oracle w) promptReply.

(** What the lock cycle leaves alone in a document: everything but the
    [syncInProgress] flag. *)
Definition sameData (d d' : ACStorageSchema) : Prop :=
  contacts d = contacts d' /\ deals d = deals d' /\ tasks d = tasks d'
  /\ lastSync d = lastSync d'.

(** The clock once the first [k] coming answers have arrived. *)
Definition clockAfter (k : nat) (w : World) : Z := (clock w + elapsed k (oracle w))%Z.

(** ** Concrete records, documents and worlds *)

Definition exampleContact (recordId : string) (at_ : Z) (name : string) : ACContact :=
  {| contact_id := recordId; contact_name := name; contact_email := "";
     contact_phone := ""; contact_tags := []; contact_owner := "";
     contact_extractedAt := at_; contact_sourceUrl := "" |}.

Definition exampleWorld (stored : option ACStorageSchema) (lock : option Z)
  (time : Z) (answers : list Reply) : World :=
  {| crm_extracted_data := stored; sync_lock_timestamp := lock;
     clock := time; oracle := answers; effects := [] |}.

Definition rejectingReply : Reply :=
  {| rejection := Some (ErrorObject "QUOTA_BYTES quota exceeded"); latency := 0 |}.

(** A stored document with one contact and the flag left set by a writer
    that crashed. *)
Definition exampleDocument : ACStorageSchema :=
  {| contacts := [exampleContact "a" 100 "X"]; deals := []; tasks := [];
     lastSync := 7; syncInProgress := true |}.

(** A world in which another writer took the lock one second ago. *)
Definition contendedWorld : World :=
  exampleWorld (Some exampleDocument) (Some 49000%Z) 50000 [].

(* ================================================================= *)
(** * Facts about the insertion-ordered map *)
(* ================================================================= *)

Section JsMapFacts.
Variable T : Type.
Implicit Types (m : JsMap.t T) (k : string) (v : T).

Lemma get_set m k v k' :
  JsMap.get (JsMap.set m k v) k' =
  if String.eqb k k' then Some v else JsMap.get m k'.
Proof.
  induction m as [|[k0 v0] m IH]; simpl.
  - reflexivity.
  - destruct (String.eqb k0 k) eqn:E0; simpl.
    + apply String.eqb_eq in E0; subst k0.
      destruct (String.eqb k k'); reflexivity.
    + destruct (String.eqb k0 k') eqn:E1.
      * apply String.eqb_eq in E1; subst k0.
        rewrite String.eqb_sym, E0. reflexivity.
      * exact IH.
Qed.

Lemma get_None_iff m k : JsMap.get m k = None <-> ~ In k (JsMap.keys m).
Proof.
  induction m as [|[k0 v0] m IH]; simpl.
  - tauto.
  - destruct (String.eqb k0 k) eqn:E.
    + apply String.eqb_eq in E. split; [discriminate | tauto].
    + apply String.eqb_neq in E. rewrite IH. tauto.
Qed.

Lemma set_absent m k v : JsMap.get m k = None -> JsMap.set m k v = m ++ [(k, v)].
Proof.
  induction m as [|[k0 v0] m IH]; simpl; intros Hg.
  - reflexivity.
  - destruct (String.eqb k0 k); [discriminate|]. now rewrite IH.
Qed.

Lemma keys_set_present m k v e :
  JsMap.get m k = Some e -> JsMap.keys (JsMap.set m k v) = JsMap.keys m.
Proof.
  induction m as [|[k0 v0] m IH]; simpl; intros Hg.
  - discriminate.
  - destruct (String.eqb k0 k) eqn:E; simpl.
    + apply String.eqb_eq in E. now subst.
    + now rewrite IH.
Qed.

Lemma keys_set m k v : JsMap.keys (JsMap.set m k v) = appendNew (JsMap.keys m) k.
Proof.
  unfold appendNew. destruct (in_dec string_dec k (JsMap.keys m)) as [Hin|Hout].
  - destruct (JsMap.get m k) eqn:Hg.
    + eapply keys_set_present; eauto.
    + apply get_None_iff in Hg. contradiction.
  - apply get_None_iff in Hout. rewrite set_absent by assumption.
    unfold JsMap.keys. now rewrite map_app.
Qed.

Lemma get_app_absent m1 m2 k :
  JsMap.get m1 k = None -> JsMap.get (m1 ++ m2) k = JsMap.get m2 k.
Proof.
  induction m1 as [|[k0 v0] m1 IH]; simpl; intros Hg.
  - reflexivity.
  - destruct (String.eqb k0 k); [discriminate | auto].
Qed.
End JsMapFacts.

Lemma appendNew_present ks k : In k ks -> appendNew ks k = ks.
Proof.
  intros Hin. unfold appendNew. destruct (in_dec string_dec k ks); tauto.
Qed.


Lemma appendNew_NoDup ks k : NoDup ks -> NoDup (appendNew ks k).
Proof.
  intros Hnd. unfold appendNew. destruct (in_dec string_dec k ks) as [|Hout].
  - assumption.
  - apply NoDup_app; [assumption | repeat constructor; simpl; tauto |].
    intros x Hx [<- | [ ] ]. contradiction.
Qed.

Lemma in_appendNew ks k x : In x (appendNew ks k) <-> In x ks \/ x = k.
Proof.
  unfold appendNew. destruct (in_dec string_dec k ks) as [Hin|Hout].
  - split; [tauto | intros [ | -> ]; assumption].
  - rewrite in_app_iff. simpl. intuition congruence.
Qed.

Lemma in_fold_appendNew l ks x :
  In x (fold_left appendNew l ks) <-> In x ks \/ In x l.
Proof.
  revert ks. induction l as [|k l IH]; simpl; intros ks.
  - tauto.
  - rewrite IH, in_appendNew. intuition (subst; auto).
Qed.

Lemma fold_appendNew_NoDup l ks : NoDup ks -> NoDup (fold_left appendNew l ks).
Proof.
  revert ks. induction l as [|k l IH]; simpl; intros ks Hnd.
  - assumption.
  - apply IH, appendNew_NoDup, Hnd.
Qed.

(** Keys that are all present already leave the key order alone. *)
Lemma fold_appendNew_present l ks :
  incl l ks -> fold_left appendNew l ks = ks.
Proof.
  induction l as [|k l IH]; simpl; intros Hincl.
  - reflexivity.
  - assert (Hk : In k ks) by (apply Hincl; simpl; auto).
    unfold appendNew at 2. destruct (in_dec string_dec k ks); [|contradiction].
    apply IH. intros x Hx. apply Hincl. simpl; auto.
Qed.

(** Fresh, pairwise distinct keys are appended in their order. *)
Lemma fold_appendNew_fresh l ks :
  NoDup l -> (forall x, In x l -> ~ In x ks) ->
  fold_left appendNew l ks = ks ++ l.
Proof.
  revert ks. induction l as [|k l IH]; simpl; intros ks Hnd Hfresh.
  - now rewrite app_nil_r.
  - inversion Hnd as [|? ? Hk Hl]; subst.
    unfold appendNew at 2. destruct (in_dec string_dec k ks) as [Hin|_].
    + exfalso. eapply Hfresh; eauto.
    + rewrite IH; [now rewrite <- app_assoc | assumption |].
      intros x Hx. rewrite in_app_iff. simpl. intros [Hin|[<- | [ ] ]].
      * eapply Hfresh; eauto.
      * contradiction.
Qed.

Lemma fold_appendNew_app l1 l2 ks :
  fold_left appendNew (l1 ++ l2) ks = fold_left appendNew l2 (fold_left appendNew l1 ks).
Proof. apply fold_left_app. Qed.


(* ================================================================= *)
(** * Facts about the two loops of the merge *)
(* ================================================================= *)

Section DeduplicationFacts.
Context {T : Type} `{EntityRecord T}.
Implicit Types (m : JsMap.t T) (E B : list T) (i : string).

Lemma hasId_true i (r : T) : hasId i r = true <-> id r = i.
Proof. unfold hasId. apply String.eqb_eq. Qed.

Lemma hasId_false i (r : T) : hasId i r = false <-> id r <> i.
Proof. unfold hasId. apply String.eqb_neq. Qed.

(** ** Well-formedness of the map *)

Lemma keyedById_set m (v : T) : keyedById m -> keyedById (JsMap.set m (id v) v).
Proof.
  unfold keyedById. induction m as [|[k0 v0] m IH]; simpl; intros Hk.
  - repeat constructor.
  - inversion Hk; subst. destruct (String.eqb k0 (id v)); constructor; auto.
Qed.

Lemma keyedById_seedStep m (r : T) : keyedById m -> keyedById (seedStep m r).
Proof. apply keyedById_set. Qed.

Lemma keyedById_mergeStep m (n : T) : keyedById m -> keyedById (mergeStep m n).
Proof.
  intros Hk. unfold mergeStep.
  destruct (JsMap.get m (id n)) as [e|]; [destruct (_ >? _)%Z|];
    auto using keyedById_set.
Qed.

Lemma keyedById_fold (step : JsMap.t T -> T -> JsMap.t T) l m :
  (forall m' r, keyedById m' -> keyedById (step m' r)) ->
  keyedById m -> keyedById (fold_left step l m).
Proof.
  intros Hstep. revert m. induction l as [|r l IH]; simpl; auto.
Qed.

Lemma keyedById_merged E B :
  keyedById (fold_left mergeStep B (fold_left seedStep E (JsMap.empty T))).
Proof.
  apply keyedById_fold; [apply keyedById_mergeStep|].
  apply keyedById_fold; [apply keyedById_seedStep | constructor].
Qed.

Lemma ids_values m : keyedById m -> ids (JsMap.values m) = JsMap.keys m.
Proof.
  unfold ids, JsMap.values, JsMap.keys. induction 1 as [|[k v] m Hkv _ IH]; simpl.
  - reflexivity.
  - simpl in Hkv. now rewrite IH, Hkv.
Qed.

Lemma values_entriesOf (l : list T) : JsMap.values (entriesOf l) = l.
Proof.
  unfold JsMap.values, entriesOf. rewrite map_map. simpl. apply map_id.
Qed.

Lemma keys_entriesOf (l : list T) : JsMap.keys (entriesOf l) = ids l.
Proof. unfold JsMap.keys, entriesOf. now rewrite map_map. Qed.

(** ** The key order *)

Lemma keys_seedStep m (r : T) :
  JsMap.keys (seedStep m r) = appendNew (JsMap.keys m) (id r).
Proof. apply keys_set. Qed.

Lemma keys_mergeStep m (n : T) :
  JsMap.keys (mergeStep m n) = appendNew (JsMap.keys m) (id n).
Proof.
  unfold mergeStep. destruct (JsMap.get m (id n)) as [e|] eqn:Hg.
  - destruct (_ >? _)%Z; [apply keys_set|].
    rewrite appendNew_present; [reflexivity|].
    destruct (in_dec string_dec (id n) (JsMap.keys m)) as [|Hout]; [assumption|].
    apply get_None_iff in Hout. congruence.
  - apply keys_set.
Qed.

Lemma keys_seeded E m :
  JsMap.keys (fold_left seedStep E m) = fold_left appendNew (ids E) (JsMap.keys m).
Proof.
  revert m. induction E as [|r E IH]; simpl; intros m.
  - reflexivity.
  - now rewrite IH, keys_seedStep.
Qed.

Lemma keys_merged B m :
  JsMap.keys (fold_left mergeStep B m) = fold_left appendNew (ids B) (JsMap.keys m).
Proof.
  revert m. induction B as [|n B IH]; simpl; intros m.
  - reflexivity.
  - now rewrite IH, keys_mergeStep.
Qed.

(** The ids of the output, in order: the ids of the existing records in
    the order of their first occurrence, then the new ids of the batch. *)
Lemma ids_performDeduplication E B :
  ids (performDeduplication E B) = fold_left appendNew (ids E ++ ids B) [].
Proof.
  unfold performDeduplication. rewrite ids_values by apply keyedById_merged.
  now rewrite keys_merged, keys_seeded, fold_left_app.
Qed.

(** ** The record stored under one id *)

Lemma get_seedStep m (r : T) i :
  JsMap.get (seedStep m r) i = if hasId i r then Some r else JsMap.get m i.
Proof. unfold seedStep, hasId. apply get_set. Qed.

Lemma get_mergeStep m (n : T) i :
  JsMap.get (mergeStep m n) i =
  if hasId i n then newer (JsMap.get m i) n else JsMap.get m i.
Proof.
  unfold mergeStep, hasId, newer. destruct (String.eqb (id n) i) eqn:Ei.
  - apply String.eqb_eq in Ei. subst i.
    destruct (JsMap.get m (id n)) as [e|] eqn:Hg.
    + destruct (_ >? _)%Z; [|assumption].
      now rewrite get_set, String.eqb_refl.
    + now rewrite get_set, String.eqb_refl.
  - destruct (JsMap.get m (id n)) as [e|]; [destruct (_ >? _)%Z|];
      try reflexivity; now rewrite get_set, Ei.
Qed.

Lemma get_seeded E m i :
  JsMap.get (fold_left seedStep E m) i =
  fold_left (fun _ r => Some r) (filter (hasId i) E) (JsMap.get m i).
Proof.
  revert m. induction E as [|r E IH]; simpl; intros m.
  - reflexivity.
  - rewrite IH, get_seedStep. now destruct (hasId i r).
Qed.

Lemma get_merged B m i :
  JsMap.get (fold_left mergeStep B m) i =
  fold_left newer (filter (hasId i) B) (JsMap.get m i).
Proof.
  revert m. induction B as [|n B IH]; simpl; intros m.
  - reflexivity.
  - rewrite IH, get_mergeStep. now destruct (hasId i n).
Qed.

Lemma recordWithId_values m i :
  keyedById m -> recordWithId i (JsMap.values m) = JsMap.get m i.
Proof.
  unfold recordWithId, JsMap.values, hasId.
  induction 1 as [|[k v] m Hkv _ IH]; simpl.
  - reflexivity.
  - simpl in Hkv. subst k. now rewrite IH.
Qed.

(** The record the output holds under an id: the last existing record of
    that id, overtaken by each strictly newer incoming record in turn. *)
Lemma recordWithId_performDeduplication E B i :
  recordWithId i (performDeduplication E B) =
  fold_left newer (filter (hasId i) B)
    (fold_left (fun _ r => Some r) (filter (hasId i) E) None).
Proof.
  unfold performDeduplication.
  rewrite recordWithId_values by apply keyedById_merged.
  now rewrite get_merged, get_seeded.
Qed.

(** ** Collections with unique ids *)

Lemma filter_hasId_absent i (l : list T) :
  ~ In i (ids l) -> filter (hasId i) l = [].
Proof.
  induction l as [|r l IH]; simpl; intros Hout.
  - reflexivity.
  - destruct (hasId i r) eqn:Er.
    + apply hasId_true in Er. tauto.
    + apply IH. tauto.
Qed.

Lemma recordWithId_absent i (l : list T) :
  ~ In i (ids l) -> recordWithId i l = None.
Proof.
  induction l as [|r l IH]; simpl; intros Hout.
  - reflexivity.
  - destruct (hasId i r) eqn:Er.
    + apply hasId_true in Er. tauto.
    + apply IH. tauto.
Qed.

Lemma recordWithId_Some i (l : list T) r :
  recordWithId i l = Some r -> In r l /\ id r = i.
Proof.
  unfold recordWithId. intros Hf. apply find_some in Hf.
  now rewrite hasId_true in Hf.
Qed.

Lemma filter_hasId_unique i (l : list T) :
  uniqueIds l ->
  filter (hasId i) l =
  match recordWithId i l with Some r => [r] | None => [] end.
Proof.
  unfold uniqueIds. induction l as [|r l IH]; simpl; intros Hnd.
  - reflexivity.
  - inversion Hnd as [|? ? Hr Hl]; subst.
    destruct (hasId i r) eqn:Er.
    + apply hasId_true in Er. subst i.
      now rewrite filter_hasId_absent.
    + auto.
Qed.

Lemma recordWithId_unique i (l : list T) r :
  uniqueIds l -> In r l -> id r = i -> recordWithId i l = Some r.
Proof.
  unfold uniqueIds. induction l as [|r0 l IH]; simpl; intros Hnd Hin Hid.
  - contradiction.
  - inversion Hnd as [|? ? Hr Hl]; subst.
    destruct Hin as [->|Hin].
    + assert (E : hasId (id r) r = true) by now apply hasId_true.
      now rewrite E.
    + destruct (hasId (id r) r0) eqn:Er.
      * apply hasId_true in Er. exfalso. apply Hr. rewrite Er.
        now apply in_map.
      * auto.
Qed.

Lemma in_iff_recordWithId (l : list T) r :
  uniqueIds l -> (In r l <-> recordWithId (id r) l = Some r).
Proof.
  intros Hu. split.
  - intros Hin. now apply recordWithId_unique.
  - intros Hf. now apply recordWithId_Some in Hf.
Qed.


(** Two collections with unique ids, the same id order and the same
    record under every id are the same list. *)
Lemma same_ids_same_records (l1 l2 : list T) :
  uniqueIds l1 -> ids l1 = ids l2 ->
  (forall i, recordWithId i l1 = recordWithId i l2) -> l1 = l2.
Proof.
  revert l2. induction l1 as [|a l1 IH]; intros [|b l2] Hu Hids Hrec;
    try discriminate; [reflexivity|].
  simpl in Hids. injection Hids as Hab Hids.
  inversion Hu as [|? ? Ha Hl1]; subst.
  assert (a = b) as <-.
  { specialize (Hrec (id a)). simpl in Hrec.
    assert (Ea : hasId (id a) a = true) by now apply hasId_true.
    assert (Eb : hasId (id a) b = true) by now apply hasId_true.
    rewrite Ea, Eb in Hrec. congruence. }
  f_equal. apply IH; auto.
  intros i. specialize (Hrec i). simpl in Hrec.
  destruct (hasId i a) eqn:Ei.
  - apply hasId_true in Ei. subst i.
    rewrite !recordWithId_absent; auto. now rewrite <- Hids.
  - exact Hrec.
Qed.

(** Seeding the map with records of fresh, distinct ids appends their
    entries; so does merging them in. *)
Lemma seeded_fresh E m :
  NoDup (JsMap.keys m ++ ids E) -> fold_left seedStep E m = m ++ entriesOf E.
Proof.
  revert m. induction E as [|r E IH]; simpl; intros m Hnd.
  - now rewrite app_nil_r.
  - assert (Hg : JsMap.get m (id r) = None).
    { apply get_None_iff. intros Hin. apply NoDup_remove_2 in Hnd.
      apply Hnd. apply in_app_iff. auto. }
    unfold seedStep at 2. rewrite set_absent by exact Hg.
    rewrite IH.
    + now rewrite <- app_assoc.
    + unfold JsMap.keys. rewrite map_app, <- app_assoc. exact Hnd.
Qed.

Lemma merged_fresh B m :
  NoDup (JsMap.keys m ++ ids B) -> fold_left mergeStep B m = m ++ entriesOf B.
Proof.
  revert m. induction B as [|n B IH]; simpl; intros m Hnd.
  - now rewrite app_nil_r.
  - assert (Hg : JsMap.get m (id n) = None).
    { apply get_None_iff. intros Hin. apply NoDup_remove_2 in Hnd.
      apply Hnd. apply in_app_iff. auto. }
    unfold mergeStep at 2. rewrite Hg, set_absent by exact Hg.
    rewrite IH.
    + now rewrite <- app_assoc.
    + unfold JsMap.keys. rewrite map_app, <- app_assoc. exact Hnd.
Qed.

(** Incoming records that the map already dominates change nothing. *)
Lemma merged_dominated B m :
  (forall n, In n B -> exists e,
      JsMap.get m (id n) = Some e /\ (extractedAt n <= extractedAt e)%Z) ->
  fold_left mergeStep B m = m.
Proof.
  induction B as [|n B IH]; simpl; intros Hdom.
  - reflexivity.
  - destruct (Hdom n (or_introl eq_refl)) as (e & Hg & Hle).
    unfold mergeStep at 2. rewrite Hg.
    destruct (extractedAt n >? extractedAt e)%Z eqn:Egt; [lia|].
    apply IH. auto.
Qed.

Lemma newer_dominates (stored : option T) (n : T) :
  exists e, newer stored n = Some e /\ (extractedAt n <= extractedAt e)%Z
            /\ (forall s, stored = Some s -> (extractedAt s <= extractedAt e)%Z).
Proof.
  unfold newer. destruct stored as [s|].
  - destruct (extractedAt n >? extractedAt s)%Z eqn:Egt.
    + exists n. repeat split; [lia|]. intros ? [= <-]. lia.
    + exists s. repeat split; [lia|]. intros ? [= <-]. lia.
  - exists n. repeat split; [lia|]. discriminate.
Qed.

Lemma fold_newer_grows (l : list T) (s : T) :
  exists e, fold_left newer l (Some s) = Some e
            /\ (extractedAt s <= extractedAt e)%Z.
Proof.
  revert s. induction l as [|n l IH]; cbn [fold_left]; intros s.
  - exists s. split; [reflexivity | lia].
  - destruct (newer_dominates (Some s) n) as (e & -> & _ & Hs).
    destruct (IH e) as (e' & -> & Hle). exists e'. split; [reflexivity|].
    specialize (Hs s eq_refl). lia.
Qed.

Lemma fold_newer_dominates (l : list T) (stored : option T) n :
  In n l ->
  exists e, fold_left newer l stored = Some e
            /\ (extractedAt n <= extractedAt e)%Z.
Proof.
  revert stored. induction l as [|n0 l IH]; cbn [fold_left In]; intros stored Hin.
  - contradiction.
  - destruct Hin as [->|Hin]; [|auto].
    destruct (newer_dominates stored n) as (e & -> & Hn & _).
    destruct (fold_newer_grows l e) as (e' & -> & Hle).
    exists e'. split; [reflexivity | lia].
Qed.
End DeduplicationFacts.

(* ================================================================= *)
(** * Properties of [performDeduplication] *)
(* ================================================================= *)

Section MergeProperties.
Context {T : Type} `{EntityRecord T}.
Implicit Types (A B C E : list T) (i : string).

Lemma performDeduplication_uniqueIds E B : uniqueIds (performDeduplication E B).
Proof.
  unfold uniqueIds. rewrite ids_performDeduplication.
  apply fold_appendNew_NoDup. constructor.
Qed.

Lemma length_ids (l : list T) : length (ids l) = length l.
Proof. apply length_map. Qed.

Lemma entriesOf_values (m : JsMap.t T) :
  keyedById m -> entriesOf (JsMap.values m) = m.
Proof.
  unfold entriesOf, JsMap.values. induction 1 as [|[k v] m Hkv _ IH]; simpl.
  - reflexivity.
  - simpl in Hkv. now rewrite IH, Hkv.
Qed.

(** A collection with unique ids seeds the map with its own entries. *)
Lemma seeded_unique E :
  uniqueIds E -> fold_left seedStep E (JsMap.empty T) = entriesOf E.
Proof. intros Hu. now rewrite seeded_fresh. Qed.

Lemma performDeduplication_nil_r E :
  uniqueIds E -> performDeduplication E [] = E.
Proof.
  intros Hu. unfold performDeduplication. simpl.
  now rewrite seeded_unique, values_entriesOf.
Qed.

Lemma performDeduplication_nil_l B :
  uniqueIds B -> performDeduplication [] B = B.
Proof.
  intros Hu. unfold performDeduplication. simpl.
  rewrite merged_fresh by exact Hu. apply values_entriesOf.
Qed.

Lemma performDeduplication_idempotent E B :
  performDeduplication (performDeduplication E B) B = performDeduplication E B.
Proof.
  unfold performDeduplication at 1.
  rewrite seeded_unique by apply performDeduplication_uniqueIds.
  unfold performDeduplication.
  set (m := fold_left mergeStep B (fold_left seedStep E (JsMap.empty T))).
  rewrite entriesOf_values by apply keyedById_merged.
  rewrite merged_dominated; [reflexivity|].
  intros n Hn. unfold m. rewrite get_merged.
  apply fold_newer_dominates. apply filter_In. split; [assumption|].
  now apply hasId_true.
Qed.

Lemma performDeduplication_keeps_ids E B i :
  In i (ids E) -> In i (ids (performDeduplication E B)).
Proof.
  intros Hin. rewrite ids_performDeduplication. apply in_fold_appendNew.
  right. apply in_app_iff. auto.
Qed.

Lemma performDeduplication_length_lower E B :
  (length (nodup string_dec (ids E)) <= length (performDeduplication E B))%nat.
Proof.
  rewrite <- (length_ids (performDeduplication E B)).
  apply NoDup_incl_length; [apply NoDup_nodup|].
  intros i Hi. apply nodup_In in Hi. now apply performDeduplication_keeps_ids.
Qed.

Lemma performDeduplication_never_shrinks E B :
  uniqueIds E -> (length E <= length (performDeduplication E B))%nat.
Proof.
  intros Hu. rewrite <- (length_ids E), <- (length_ids (performDeduplication E B)).
  apply NoDup_incl_length; [exact Hu|].
  intros i Hi. now apply performDeduplication_keeps_ids.
Qed.

(** A batch whose ids all exist leaves the key set alone. *)
Lemma performDeduplication_known_ids E B :
  incl (ids B) (ids E) ->
  ids (performDeduplication E B) = fold_left appendNew (ids E) [].
Proof.
  intros Hincl. rewrite ids_performDeduplication, fold_left_app.
  apply fold_appendNew_present. intros i Hi. apply in_fold_appendNew. auto.
Qed.

Lemma performDeduplication_known_length E B :
  incl (ids B) (ids E) ->
  (length (performDeduplication E B) <= length E)%nat.
Proof.
  intros Hincl.
  rewrite <- (length_ids E), <- (length_ids (performDeduplication E B)).
  apply NoDup_incl_length; [apply performDeduplication_uniqueIds|].
  rewrite performDeduplication_known_ids by assumption.
  intros i Hi. apply in_fold_appendNew in Hi. simpl in Hi. tauto.
Qed.

(** ** The winner under one id *)



Lemma last_existing_unique E i :
  uniqueIds E ->
  fold_left (fun _ r => Some r) (filter (hasId i) E) None = recordWithId i E.
Proof.
  intros Hu. rewrite filter_hasId_unique by assumption.
  now destruct (recordWithId i E).
Qed.








(** The record kept under the id of an existing record [e] when the batch
    holds exactly one record [n] of that id. *)
Lemma recordWithId_single_incoming E B (e n : T) :
  uniqueIds E -> In e E -> filter (hasId (id e)) B = [n] ->
  recordWithId (id e) (performDeduplication E B) =
  Some (if (extractedAt n >? extractedAt e)%Z then n else e).
Proof.
  intros Hu He Hn. rewrite recordWithId_performDeduplication, Hn.
  rewrite last_existing_unique by assumption.
  rewrite (recordWithId_unique (i := id e) (l := E) e) by auto. simpl.
  now destruct (_ >? _)%Z.
Qed.
End MergeProperties.

(* ================================================================= *)
(** * Running the storage calls *)
(* ================================================================= *)

Lemma awaitReply_store w :
  crm_extracted_data (snd (awaitReply w)) = crm_extracted_data w
  /\ sync_lock_timestamp (snd (awaitReply w)) = sync_lock_timestamp w
  /\ effects (snd (awaitReply w)) = effects w
  /\ oracle (snd (awaitReply w)) = tl (oracle w)
  /\ clock (snd (awaitReply w)) = (clock w + elapsed 1 (oracle w))%Z.
Proof.
  unfold awaitReply. destruct (oracle w) as [|reply rest]; simpl;
    repeat split; lia.
Qed.

Lemma awaitReply_fulfils n w :
  fulfils (S n) (oracle w) = true ->
  rejection (fst (awaitReply w)) = None
  /\ fulfils n (oracle (snd (awaitReply w))) = true.
Proof.
  unfold awaitReply. destruct (oracle w) as [|reply rest]; simpl.
  - intros _. split; [reflexivity | now destruct n].
  - destruct (rejection reply); [discriminate | auto].
Qed.

Lemma fulfils_weaken n l : fulfils (S n) l = true -> fulfils n l = true.
Proof.
  revert l. induction n as [|n IH]; intros l; [reflexivity|].
  destruct l as [|reply rest]; [reflexivity|].
  cbn [fulfils]. destruct (rejection reply); [discriminate | apply IH].
Qed.

Lemma fulfils_tl n l : fulfils (S n) l = true -> fulfils n (tl l) = true.
Proof.
  destruct l as [|reply rest]; simpl.
  - now destruct n.
  - now destruct (rejection reply).
Qed.

Lemma elapsed_S n l :
  elapsed (S n) l = (elapsed 1 l + elapsed n (tl l))%Z.
Proof.
  destruct l as [|reply rest]; simpl.
  - now destruct n.
  - lia.
Qed.

(** ** Triples: the rules *)

Section TripleRules.
Context {A B : Type}.

Lemma triple_ret (a : A) (P : World -> Prop) Q :
  (forall w, P w -> Q (Returned a) w) -> triple P (ret a) Q.
Proof. intros HQ w Hw. now apply HQ. Qed.

Lemma triple_bind (m : Async A) (k : A -> Async B) P R Q :
  triple P m R ->
  (forall a, triple (R (Returned a)) (k a) Q) ->
  (forall error w, R (Thrown error) w -> Q (Thrown error) w) ->
  triple P (bind m k) Q.
Proof.
  intros Hm Hk Hthrow w Hw. specialize (Hm w Hw).
  unfold outcomeOf, worldAfter, bind in *.
  destruct (m w) as [[a|error] w1]; simpl in Hm.
  - now apply Hk.
  - now apply Hthrow.
Qed.

Lemma triple_tryCatch (body : Async A) handler P R Q :
  triple P body R ->
  (forall a w, R (Returned a) w -> Q (Returned a) w) ->
  (forall error, triple (R (Thrown error)) (handler error) Q) ->
  triple P (tryCatch body handler) Q.
Proof.
  intros Hbody Hret Hhandler w Hw. specialize (Hbody w Hw).
  unfold outcomeOf, worldAfter, tryCatch in *.
  destruct (body w) as [[a|error] w1]; simpl in Hbody.
  - now apply Hret.
  - now apply Hhandler.
Qed.

Lemma triple_consequence (m : Async A) (P P' : World -> Prop) Q Q' :
  triple P m Q ->
  (forall w, P' w -> P w) ->
  (forall o w, Q o w -> Q' o w) ->
  triple P' m Q'.
Proof. intros Hm HP HQ w Hw. apply HQ, Hm, HP, Hw. Qed.
End TripleRules.

(** ** Triples: the storage calls and the document *)

Section DocumentTriples.
Variable D : option ACStorageSchema -> Prop.

Ltac run_storage_call :=
  let w := fresh "w" in
  let Hw := fresh "Hw" in
  let Hs := fresh "Hs" in
  let reply := fresh "reply" in
  let w1 := fresh "w" in
  intros w Hw;
  unfold outcomeOf, worldAfter, storageGetData, storageSetData, storageGetLock,
    storageSetLock, storageRemoveLock, storageCall, underKey in *;
  destruct (awaitReply_store w) as (Hs & _);
  destruct (awaitReply w) as [reply w1]; simpl in Hs;
  destruct (rejection reply); simpl.

Lemma storageGetData_keeps :
  triple (underKey D) storageGetData
    (fun o w => underKey D w /\ forall a, o = Returned a -> a = crm_extracted_data w).
Proof.
  run_storage_call.
  - split; [congruence | discriminate].
  - split; [congruence|]. now intros a [= <-].
Qed.

Lemma storageSetData_keeps d :
  D (Some d) -> triple (underKey D) (storageSetData d) (fun _ w => underKey D w).
Proof. intros Hd. run_storage_call; congruence. Qed.

Lemma storageGetLock_keeps :
  triple (underKey D) storageGetLock (fun _ w => underKey D w).
Proof. run_storage_call; congruence. Qed.

Lemma storageSetLock_keeps t :
  triple (underKey D) (storageSetLock t) (fun _ w => underKey D w).
Proof. run_storage_call; congruence. Qed.

Lemma storageRemoveLock_keeps :
  triple (underKey D) storageRemoveLock (fun _ w => underKey D w).
Proof. run_storage_call; congruence. Qed.

Lemma dateNow_keeps :
  triple (underKey D) dateNow (fun o w => underKey D w /\ exists t, o = Returned t).
Proof. intros w Hw. split; [exact Hw | now exists (clock w)]. Qed.

Lemma delayExecution_keeps ms :
  triple (underKey D) (delayExecution ms) (fun o w => underKey D w /\ o = Returned tt).
Proof. intros w Hw. split; [exact Hw | reflexivity]. Qed.

Lemma consoleWarn_keeps message :
  triple (underKey D) (consoleWarn message)
    (fun o w => underKey D w /\ o = Returned tt).
Proof. intros w Hw. split; [exact Hw | reflexivity]. Qed.
End DocumentTriples.

Lemma triple_run {A} (P : World -> Prop) (m : Async A) Q w :
  triple P m Q -> P w -> exists o w', m w = (o, w') /\ Q o w'.
Proof.
  intros Hm Hw. specialize (Hm w Hw). unfold outcomeOf, worldAfter in Hm.
  destruct (m w) as [o w']. now exists o, w'.
Qed.
Arguments triple_run {A P m Q w} _ _.

(** Runs the next call of the goal with the triple [L] and the current
    invariant [Hw], and names what comes back. *)
Tactic Notation "run_call" constr(L) constr(Hw) "as" simple_intropattern(pat) :=
  destruct (triple_run L Hw) as pat;
  match goal with
  | Heq : _ = (_, _) |- _ => rewrite Heq; clear Heq
  end; simpl.

(* ================================================================= *)
(** * Properties of the document that the protocol keeps *)
(* ================================================================= *)

Section DocumentInvariant.
Variable Dd : ACStorageSchema -> Prop.
Hypothesis Dd_flag : forall b d, Dd d -> Dd (setSyncInProgress b d).

Lemma retrieveAllData_keeps :
  triple (storeSatisfies Dd) retrieveAllData
    (fun o w => storeSatisfies Dd w /\
       exists r, o = Returned r /\ forall p, payload r = Some p -> Dd p).
Proof.
  intros w Hw.
  unfold outcomeOf, worldAfter, retrieveAllData, tryCatch, bind, ret.
  run_call (storageGetData_keeps (fun stored => Dd (documentOrDefault stored))) Hw
    as (o & w1 & ? & Hw1 & Ha).
  destruct o as [a|error]; simpl.
  - split; [exact Hw1|]. eexists. split; [reflexivity|]. simpl.
    intros p [= <-]. rewrite (Ha a eq_refl). exact Hw1.
  - split; [exact Hw1|]. eexists. split; [reflexivity|]. discriminate.
Qed.

Lemma persistData_keeps d :
  Dd d ->
  triple (storeSatisfies Dd) (persistData d)
    (fun o w => storeSatisfies Dd w /\ exists r, o = Returned r).
Proof.
  intros Hd w Hw.
  unfold outcomeOf, worldAfter, persistData, tryCatch, bind, ret.
  run_call (@storageSetData_keeps (fun stored => Dd (documentOrDefault stored)) d Hd) Hw
    as (o & w1 & ? & Hw1).
  destruct o as [[]|error]; simpl; (split; [exact Hw1 | eexists; reflexivity]).
Qed.

Lemma acquireSyncLock_keeps :
  triple (storeSatisfies Dd) acquireSyncLock
    (fun o w => storeSatisfies Dd w /\ exists b, o = Returned b).
Proof.
  intros w Hw.
  unfold outcomeOf, worldAfter, acquireSyncLock, tryCatch, bind, ret.
  run_call retrieveAllData_keeps Hw as (o & w1 & ? & Hw1 & r & -> & Hp).
  destruct (success r), (payload r) as [p|] eqn:Ep; simpl;
    try (split; [exact Hw1 | eexists; reflexivity]).
  run_call (storageGetLock_keeps (fun stored => Dd (documentOrDefault stored))) Hw1
    as (o2 & w2 & ? & Hw2).
  destruct o2 as [existingLock|error]; simpl;
    [| split; [exact Hw2 | eexists; reflexivity] ].
  destruct (lockIsHeld existingLock (clock w2)); simpl;
    [ split; [exact Hw2 | eexists; reflexivity] |].
  run_call (storageSetLock_keeps (fun stored => Dd (documentOrDefault stored)) (clock w2)) Hw2
    as (o3 & w3 & ? & Hw3).
  destruct o3 as [[]|error]; simpl;
    [| split; [exact Hw3 | eexists; reflexivity] ].
  run_call (persistData_keeps (Dd_flag true (Hp p eq_refl))) Hw3
    as (o4 & w4 & ? & Hw4 & r4 & ->).
  split; [exact Hw4 | eexists; reflexivity].
Qed.

Lemma releaseSyncLock_keeps :
  triple (storeSatisfies Dd) releaseSyncLock
    (fun o w => storeSatisfies Dd w /\ o = Returned tt).
Proof.
  intros w Hw.
  unfold outcomeOf, worldAfter, releaseSyncLock, tryCatch, bind, ret.
  run_call (storageRemoveLock_keeps (fun stored => Dd (documentOrDefault stored))) Hw
    as (o & w1 & ? & Hw1).
  destruct o as [[]|error]; simpl; [| split; [exact Hw1 | reflexivity] ].
  run_call retrieveAllData_keeps Hw1 as (o2 & w2 & ? & Hw2 & r & -> & Hp).
  destruct (success r), (payload r) as [p|] eqn:Ep; simpl;
    try (split; [exact Hw2 | reflexivity]).
  run_call (persistData_keeps (Dd_flag false (Hp p eq_refl))) Hw2
    as (o3 & w3 & ? & Hw3 & r3 & ->).
  split; [exact Hw3 | reflexivity].
Qed.
End DocumentInvariant.

Section InsertInvariant.
Variable entityType : EntityType.
Variable newRecords : list (RecordOf entityType).
Variables Dd Dd' : ACStorageSchema -> Prop.
Hypothesis Dd_flag : forall b d, Dd d -> Dd (setSyncInProgress b d).
Hypothesis Dd'_flag : forall b d, Dd' d -> Dd' (setSyncInProgress b d).
Hypothesis Dd_weaken : forall d, Dd d -> Dd' d.
Hypothesis Dd_merge : forall d t, Dd d ->
  Dd' (setLastSync t
         (setCollection entityType
            (performDeduplication (getCollection entityType d) newRecords) d)).

(** A successful result carries the count computed from a document that
    satisfied [Dd] when it was read. *)
Lemma insertAttempt_keeps maxRetries attemptCount :
  triple (storeSatisfies Dd) (insertAttempt entityType newRecords maxRetries attemptCount)
    (fun o w => exists step, o = Returned step /\
       match step with
       | Continue _ => storeSatisfies Dd w
       | Return r =>
           storeSatisfies Dd' w /\
           (success r = true -> exists p, Dd p /\
              payload r = Some (insertedCountFor (getCollection entityType p) newRecords))
       end).
Proof.
  intros w Hw.
  unfold outcomeOf, worldAfter, insertAttempt, tryCatch, bind, ret.
  run_call (@acquireSyncLock_keeps Dd Dd_flag) Hw as (o & w1 & ? & Hw1 & lockAcquired & ->).
  destruct lockAcquired; simpl.
  - run_call (@retrieveAllData_keeps Dd) Hw1 as (o2 & w2 & ? & Hw2 & r & -> & Hp).
    assert (Hw2' : storeSatisfies Dd' w2) by (apply Dd_weaken, Hw2).
    destruct (success r), (payload r) as [p|] eqn:Ep; simpl.
    + unfold dateNow. simpl.
      run_call (@persistData_keeps Dd' _ (Dd_merge (clock w2) (Hp p eq_refl))) Hw2'
        as (o3 & w3 & ? & Hw3 & persistResult & ->).
      run_call (@releaseSyncLock_keeps Dd' Dd'_flag) Hw3 as (o4 & w4 & ? & Hw4 & ->).
      destruct (success persistResult); simpl.
      * eexists. split; [reflexivity|]. simpl. split; [exact Hw4|].
        intros _. exists p. split; [now apply Hp | reflexivity].
      * eexists. split; [reflexivity|]. simpl. split; [exact Hw4 | discriminate].
    + run_call (@releaseSyncLock_keeps Dd' Dd'_flag) Hw2' as (o4 & w4 & ? & Hw4 & ->).
      eexists. split; [reflexivity|]. simpl. split; [exact Hw4 | discriminate].
    + run_call (@releaseSyncLock_keeps Dd' Dd'_flag) Hw2' as (o4 & w4 & ? & Hw4 & ->).
      eexists. split; [reflexivity|]. simpl. split; [exact Hw4 | discriminate].
    + run_call (@releaseSyncLock_keeps Dd' Dd'_flag) Hw2' as (o4 & w4 & ? & Hw4 & ->).
      eexists. split; [reflexivity|]. simpl. split; [exact Hw4 | discriminate].
  - eexists. split; [reflexivity|]. exact Hw1.
Qed.

Lemma insertLoop_keeps maxRetries remaining attemptCount :
  triple (storeSatisfies Dd)
    (insertLoop entityType newRecords maxRetries remaining attemptCount)
    (fun o w => exists r, o = Returned r /\ storeSatisfies Dd' w /\
       (success r = true -> exists p, Dd p /\
          payload r = Some (insertedCountFor (getCollection entityType p) newRecords))).
Proof.
  revert attemptCount. induction remaining as [|remaining IH]; intros attemptCount w Hw.
  - simpl. eexists. split; [reflexivity|]. split; [apply Dd_weaken, Hw | discriminate].
  - unfold outcomeOf, worldAfter. cbn [insertLoop]. unfold bind.
    run_call (insertAttempt_keeps maxRetries attemptCount) Hw
      as (o & w1 & ? & step & -> & Hstep).
    destruct step as [attemptCount'|r].
    + apply (IH attemptCount' w1 Hstep).
    + simpl. exists r. split; [reflexivity | exact Hstep].
Qed.
End InsertInvariant.

(* ================================================================= *)
(** * Runs in which the store fulfils the calls *)
(* ================================================================= *)

Lemma crm_replied w : crm_extracted_data (replied w) = crm_extracted_data w.
Proof. apply awaitReply_store. Qed.

Lemma lock_replied w : sync_lock_timestamp (replied w) = sync_lock_timestamp w.
Proof. apply awaitReply_store. Qed.

Lemma effects_replied w : effects (replied w) = effects w.
Proof. apply awaitReply_store. Qed.

Lemma oracle_replied w : oracle (replied w) = tl (oracle w).
Proof. apply awaitReply_store. Qed.

Lemma clock_replied w : clock (replied w) = (clock w + elapsed 1 (oracle w))%Z.
Proof. apply awaitReply_store. Qed.

#[global] Opaque replied.

Create Rewrite HintDb world.
#[global] Hint Rewrite crm_replied lock_replied effects_replied oracle_replied
  clock_replied : world.

Ltac fields := repeat (simpl; autorewrite with world).

Lemma storageCall_fulfilled {A} effect (commit : World -> A * World) w :
  fulfils 1 (oracle w) = true ->
  storageCall effect commit w =
  (Returned (fst (commit (replied w))),
   logEffect (effect true) (snd (commit (replied w)))).
Proof.
  intros Hf. apply (awaitReply_fulfils 0) in Hf. destruct Hf as [Hr _].
  unfold storageCall. change (replied w) with (snd (awaitReply w)).
  destruct (awaitReply w) as [reply w1]. simpl in *. rewrite Hr.
  now destruct (commit w1).
Qed.

Lemma storageCall_rejected {A} effect (commit : World -> A * World) w error :
  rejection (hd promptReply (oracle w)) = Some error ->
  storageCall effect commit w = (Thrown error, logEffect (effect false) (replied w)).
Proof.
  intros Hr. unfold storageCall. change (replied w) with (snd (awaitReply w)).
  unfold awaitReply. destruct (oracle w) as [|reply rest]; simpl in *.
  - discriminate.
  - now rewrite Hr.
Qed.

Lemma retrieveAllData_fulfilled w :
  fulfils 1 (oracle w) = true ->
  retrieveAllData w =
  (Returned {| success := true;
               payload := Some (documentOrDefault (crm_extracted_data w));
               errorMessage := None |},
   logEffect (StorageGet CRM_DATA true) (replied w)).
Proof.
  intros Hf. unfold retrieveAllData, tryCatch, bind, storageGetData.
  rewrite storageCall_fulfilled by assumption. fields. reflexivity.
Qed.

Lemma persistData_fulfilled d w :
  fulfils 1 (oracle w) = true ->
  persistData d w =
  (Returned {| success := true; payload := Some tt; errorMessage := None |},
   logEffect (StorageSet CRM_DATA true) (writeData (Some d) (replied w))).
Proof.
  intros Hf. unfold persistData, tryCatch, bind, storageSetData.
  now rewrite storageCall_fulfilled by assumption.
Qed.

Lemma fulfils_1 n l : fulfils (S n) l = true -> fulfils 1 l = true.
Proof.
  destruct l as [|reply rest]; simpl; [reflexivity|].
  now destruct (rejection reply).
Qed.

Lemma lockCheckTime_clock w :
  clock (replied (logEffect (StorageGet CRM_DATA true) (replied w))) = lockCheckTime w.
Proof.
  unfold lockCheckTime. rewrite (elapsed_S 1).
  rewrite clock_replied. simpl. rewrite clock_replied, oracle_replied.
  destruct (oracle w) as [|? [|? ?]]; simpl; lia.
Qed.

(** The world [acquireSyncLock] leaves when it takes the lock. *)
Lemma acquireSyncLock_free w :
  fulfils 4 (oracle w) = true ->
  lockIsHeld (sync_lock_timestamp w) (lockCheckTime w) = false ->
  acquireSyncLock w =
  (Returned true,
   logEffect (StorageSet CRM_DATA true)
     (writeData
        (Some (setSyncInProgress true (documentOrDefault (crm_extracted_data w))))
        (replied
           (logEffect (StorageSet SYNC_LOCK true)
              (writeLock (Some (lockCheckTime w))
                 (replied
                    (logEffect (StorageGet SYNC_LOCK true)
                       (replied (logEffect (StorageGet CRM_DATA true) (replied w)))))))))).
Proof.
  intros Hf Hfree.
  unfold acquireSyncLock, tryCatch, bind.
  rewrite retrieveAllData_fulfilled by (eapply fulfils_1; eauto). simpl.
  unfold storageGetLock. rewrite storageCall_fulfilled
    by (fields; eapply fulfils_1, fulfils_tl; eauto).
  unfold dateNow. simpl. rewrite lockCheckTime_clock.
  rewrite !lock_replied. simpl. rewrite lock_replied, Hfree. simpl.
  unfold storageSetLock. rewrite storageCall_fulfilled
    by (fields; eapply fulfils_1, fulfils_tl, fulfils_tl; eauto).
  simpl. rewrite persistData_fulfilled
    by (fields; eapply fulfils_1, fulfils_tl, fulfils_tl, fulfils_tl; eauto).
  reflexivity.
Qed.

(** The world [acquireSyncLock] leaves when it meets a fresh lock. *)
Lemma acquireSyncLock_held w :
  fulfils 2 (oracle w) = true ->
  lockIsHeld (sync_lock_timestamp w) (lockCheckTime w) = true ->
  acquireSyncLock w =
  (Returned false,
   logEffect (StorageGet SYNC_LOCK true)
     (replied (logEffect (StorageGet CRM_DATA true) (replied w)))).
Proof.
  intros Hf Hheld.
  unfold acquireSyncLock, tryCatch, bind.
  rewrite retrieveAllData_fulfilled by (eapply fulfils_1; eauto). simpl.
  unfold storageGetLock. rewrite storageCall_fulfilled
    by (fields; eapply fulfils_1, fulfils_tl; eauto).
  unfold dateNow. simpl. rewrite lockCheckTime_clock.
  rewrite !lock_replied. simpl. rewrite lock_replied, Hheld. reflexivity.
Qed.

Lemma lockIsHeld_spec l t :
  lockIsHeld l t = true <->
  exists timestamp, l = Some timestamp /\ timestamp <> 0%Z
                    /\ (t - timestamp < lockTimeout)%Z.
Proof.
  unfold lockIsHeld. destruct l as [timestamp|].
  - rewrite andb_true_iff, negb_true_iff, Z.eqb_neq, Z.ltb_lt. split.
    + intros [? ?]. now exists timestamp.
    + now intros (? & [= <-] & ? & ?).
  - split; [discriminate | now intros (? & ? & _)].
Qed.

Lemma lockIsHeld_within w :
  sync_lock_timestamp w <> Some 0%Z ->
  lockIsHeld (sync_lock_timestamp w) (lockCheckTime w) = true
  <-> lockWithinTimeout w.
Proof.
  intros Hnz. rewrite lockIsHeld_spec. unfold lockWithinTimeout.
  split.
  - intros (timestamp & Hl & _ & Hage). now exists timestamp.
  - intros (timestamp & Hl & Hage). exists timestamp.
    split; [exact Hl|]. split; [congruence | exact Hage].
Qed.

(** The world [acquireSyncLock] leaves when the two reads are fulfilled, no
    lock is held and the write of the lock key is rejected: the rejection
    is caught, and nothing was written. *)
Lemma acquireSyncLock_lock_write_rejected w :
  fulfils 2 (oracle w) = true ->
  fulfils 3 (oracle w) = false ->
  lockIsHeld (sync_lock_timestamp w) (lockCheckTime w) = false ->
  acquireSyncLock w =
  (Returned false,
   logEffect (StorageSet SYNC_LOCK false)
     (replied
        (logEffect (StorageGet SYNC_LOCK true)
           (replied (logEffect (StorageGet CRM_DATA true) (replied w)))))).
Proof.
  intros Hf Hrej Hfree.
  assert (Hr : exists error,
             rejection (hd promptReply (tl (tl (oracle w)))) = Some error).
  { destruct (oracle w) as [|r0 l]; simpl in *; [discriminate|].
    destruct (rejection r0); [discriminate|].
    destruct l as [|r1 l]; simpl in *; [discriminate|].
    destruct (rejection r1); [discriminate|].
    destruct l as [|r2 l]; simpl in *; [discriminate|].
    destruct (rejection r2) as [error|]; [now exists error | discriminate]. }
  destruct Hr as [error Hr].
  unfold acquireSyncLock, tryCatch, bind.
  rewrite retrieveAllData_fulfilled by (eapply fulfils_1; eauto). simpl.
  unfold storageGetLock. rewrite storageCall_fulfilled
    by (fields; eapply fulfils_1, fulfils_tl; eauto).
  unfold dateNow. simpl. rewrite lockCheckTime_clock.
  rewrite !lock_replied. simpl. rewrite lock_replied, Hfree. simpl.
  unfold storageSetLock.
  rewrite (@storageCall_rejected _ _ _ _ error) by (fields; exact Hr).
  reflexivity.
Qed.

(* ================================================================= *)
(** * Runs under any answers of the store *)
(* ================================================================= *)

Lemma storageCall_cases {A} effect (commit : World -> A * World) w :
  (exists error,
      storageCall effect commit w =
      (Thrown error, logEffect (effect false) (replied w)))
  \/ storageCall effect commit w =
     (Returned (fst (commit (replied w))),
      logEffect (effect true) (snd (commit (replied w)))).
Proof.
  unfold storageCall. change (replied w) with (snd (awaitReply w)).
  destruct (awaitReply w) as [reply w1]. simpl.
  destruct (rejection reply) as [error|].
  - left. now exists error.
  - right. now destruct (commit w1).
Qed.

(** Splits the run at the next storage call of the goal. *)
Ltac next_storage_call :=
  match goal with
  | |- context [storageCall ?effect ?commit ?w] =>
      let E := fresh "E" in
      destruct (storageCall_cases effect commit w) as [[? E]|E];
      rewrite E; clear E; simpl
  end.

Ltac unfold_service :=
  unfold outcomeOf, worldAfter, acquireSyncLock, releaseSyncLock, removeRecord,
    clearAllRecords, retrieveAllData, persistData, tryCatch, bind, ret,
    storageGetData, storageGetLock, storageSetLock, storageSetData,
    storageRemoveLock, dateNow, consoleWarn.

Ltac new_effects :=
  fields; rewrite <- ?app_assoc; simpl;
  eexists; split; [reflexivity | reflexivity].

(** An acquisition that ends without the lock has touched neither key. *)
Lemma acquireSyncLock_false w :
  outcomeOf acquireSyncLock w = Returned false ->
  crm_extracted_data (worldAfter acquireSyncLock w) = crm_extracted_data w
  /\ sync_lock_timestamp (worldAfter acquireSyncLock w) = sync_lock_timestamp w
  /\ exists es, effects (worldAfter acquireSyncLock w) = effects w ++ es
                /\ forallb isLockProbe es = true.
Proof.
  unfold_service. next_storage_call.
  - intros _. repeat split; fields; try reflexivity. new_effects.
  - next_storage_call.
    + intros _. repeat split; fields; try reflexivity. new_effects.
    + destruct (lockIsHeld _ _); simpl.
      * intros _. repeat split; fields; try reflexivity. new_effects.
      * next_storage_call.
        -- intros _. repeat split; fields; try reflexivity. new_effects.
        -- next_storage_call; discriminate.
Qed.

Lemma lockProbes_harmless es :
  forallb isLockProbe es = true ->
  existsb isDocumentWrite es = false /\ filter isTimeout es = [].
Proof.
  induction es as [|e es IH]; simpl; [auto|].
  rewrite andb_true_iff. intros [He Hes]. destruct (IH Hes) as [-> ->].
  destruct e as [k b|[|] [|]|k b|ms|msg]; simpl in *; auto; discriminate.
Qed.

Lemma releaseSyncLock_returns w : outcomeOf releaseSyncLock w = Returned tt.
Proof.
  apply (@releaseSyncLock_keeps (fun _ => True) (fun _ _ _ => I) w I).
Qed.

(** ** Collections of a document *)

Lemma getCollection_setCollection entityType l d :
  getCollection entityType (setCollection entityType l d) = l.
Proof. now destruct entityType. Qed.

Lemma getCollection_setSyncInProgress entityType b d :
  getCollection entityType (setSyncInProgress b d) = getCollection entityType d.
Proof. now destruct entityType. Qed.

Lemma getCollection_setLastSync entityType t d :
  getCollection entityType (setLastSync t d) = getCollection entityType d.
Proof. now destruct entityType. Qed.

Lemma uniqueIds_setCollection entityType l d :
  documentHasUniqueIds d -> uniqueIds l ->
  documentHasUniqueIds (setCollection entityType l d).
Proof.
  intros Hd Hl other.
  destruct entityType, other; simpl; try exact Hl;
    first [exact (Hd Contacts) | exact (Hd Deals) | exact (Hd Tasks)].
Qed.

Lemma uniqueIds_setSyncInProgress b d :
  documentHasUniqueIds d -> documentHasUniqueIds (setSyncInProgress b d).
Proof.
  intros Hd other. rewrite getCollection_setSyncInProgress. apply Hd.
Qed.

Lemma uniqueIds_setLastSync t d :
  documentHasUniqueIds d -> documentHasUniqueIds (setLastSync t d).
Proof.
  intros Hd other. rewrite getCollection_setLastSync. apply Hd.
Qed.

Lemma uniqueIds_default : documentHasUniqueIds DEFAULT_STORAGE_STATE.
Proof. intros []; constructor. Qed.

Lemma uniqueIds_withoutId {T} `{EntityRecord T} recordId (l : list T) :
  uniqueIds l -> uniqueIds (withoutId recordId l).
Proof.
  unfold uniqueIds, ids, withoutId. induction l as [|r l IH]; simpl; intros Hnd.
  - constructor.
  - inversion Hnd as [|? ? Hr Hl]; subst.
    destruct (negb (String.eqb (id r) recordId)); simpl; [|auto].
    constructor; [|auto]. intros Hin. apply Hr.
    apply in_map_iff in Hin. destruct Hin as (x & Hx & Hin).
    apply filter_In in Hin. apply in_map_iff. exists x. tauto.
Qed.

Lemma withoutId_absent {T} `{EntityRecord T} recordId (l : list T) :
  ~ In recordId (ids l) -> withoutId recordId l = l.
Proof.
  unfold withoutId, ids. induction l as [|r l IH]; simpl; intros Hout.
  - reflexivity.
  - destruct (String.eqb (id r) recordId) eqn:Er; simpl.
    + apply String.eqb_eq in Er. tauto.
    + rewrite IH; tauto.
Qed.

(** ** The uniqueness invariant through the three mutations *)

Lemma insertRecordsWithDeduplication_keeps_uniqueIds entityType newRecords :
  triple storeHasUniqueIds (insertRecordsWithDeduplication entityType newRecords)
    (fun _ w => storeHasUniqueIds w).
Proof.
  eapply triple_consequence.
  - apply (@insertLoop_keeps entityType newRecords
             documentHasUniqueIds documentHasUniqueIds).
    + intros b d. apply uniqueIds_setSyncInProgress.
    + intros b d. apply uniqueIds_setSyncInProgress.
    + auto.
    + intros d t Hd. apply uniqueIds_setLastSync, uniqueIds_setCollection;
        [exact Hd | apply performDeduplication_uniqueIds].
  - auto.
  - intros o w (r & _ & Hw & _). exact Hw.
Qed.

Lemma removeRecord_keeps_uniqueIds entityType recordId :
  triple storeHasUniqueIds (removeRecord entityType recordId)
    (fun _ w => storeHasUniqueIds w).
Proof.
  intros w Hw.
  unfold outcomeOf, worldAfter, removeRecord, tryCatch, bind, ret.
  run_call (retrieveAllData_keeps documentHasUniqueIds) Hw
    as (o & w1 & ? & Hw1 & r & -> & Hp).
  destruct (success r), (payload r) as [p|] eqn:Ep; simpl; try exact Hw1.
  destruct (_ =? _)%nat; simpl; [exact Hw1|].
  assert (Hd : documentHasUniqueIds
                 (setCollection entityType
                    (withoutId recordId (getCollection entityType p)) p)).
  { apply uniqueIds_setCollection; [now apply Hp|].
    apply uniqueIds_withoutId. now apply Hp. }
  run_call (@persistData_keeps documentHasUniqueIds _ Hd) Hw1
    as (o2 & w2 & ? & Hw2 & r2 & ->).
  exact Hw2.
Qed.

Lemma clearAllRecords_keeps_uniqueIds :
  triple storeHasUniqueIds clearAllRecords (fun _ w => storeHasUniqueIds w).
Proof.
  intros w Hw.
  unfold outcomeOf, worldAfter, clearAllRecords, tryCatch, bind, ret.
  run_call (@storageSetData_keeps
              (fun stored => documentHasUniqueIds (documentOrDefault stored))
              DEFAULT_STORAGE_STATE uniqueIds_default) Hw
    as (o & w1 & ? & Hw1).
  destruct o as [[]|error]; exact Hw1.
Qed.

Lemma runOperation_keeps_uniqueIds op w :
  storeHasUniqueIds w -> storeHasUniqueIds (runOperation op w).
Proof.
  destruct op as [entityType newRecords|entityType recordId|]; simpl.
  - apply insertRecordsWithDeduplication_keeps_uniqueIds.
  - apply removeRecord_keeps_uniqueIds.
  - apply clearAllRecords_keeps_uniqueIds.
Qed.

Lemma runOperations_keeps_uniqueIds ops w :
  storeHasUniqueIds w -> storeHasUniqueIds (runOperations ops w).
Proof.
  revert w. induction ops as [|op ops IH]; simpl; intros w Hw.
  - exact Hw.
  - apply IH, runOperation_keeps_uniqueIds, Hw.
Qed.

(** ** What an insertion reports *)

Lemma insertRecordsWithDeduplication_reports entityType newRecords w r :
  outcomeOf (insertRecordsWithDeduplication entityType newRecords) w = Returned r ->
  success r = true ->
  payload r =
  Some (insertedCountFor
          (getCollection entityType (documentOrDefault (crm_extracted_data w)))
          newRecords).
Proof.
  intros Hr Hsuccess.
  set (E := getCollection entityType (documentOrDefault (crm_extracted_data w))).
  assert (Hpre : storeSatisfies (fun d => getCollection entityType d = E) w)
    by reflexivity.
  destruct (@insertLoop_keeps entityType newRecords
              (fun d => getCollection entityType d = E) (fun _ => True)
              (fun b d Hd => eq_trans (getCollection_setSyncInProgress entityType b d) Hd)
              (fun _ _ _ => I) (fun _ _ => I) (fun _ _ _ => I)
              RETRY_ATTEMPTS (RETRY_ATTEMPTS - 0) 0%nat w Hpre)
    as (r' & Hr' & _ & Hcount).
  unfold insertRecordsWithDeduplication in Hr. rewrite Hr in Hr'.
  injection Hr' as <-. destruct (Hcount Hsuccess) as (p & Hp & ->).
  now rewrite Hp.
Qed.

Lemma insertRecordsWithDeduplication_succeeds entityType newRecords w :
  fulfils 6 (oracle w) = true ->
  lockIsHeld (sync_lock_timestamp w) (lockCheckTime w) = false ->
  outcomeOf (insertRecordsWithDeduplication entityType newRecords) w =
  Returned {| success := true;
              payload :=
                Some (insertedCountFor
                        (getCollection entityType
                           (documentOrDefault (crm_extracted_data w)))
                        newRecords);
              errorMessage := None |}.
Proof.
  intros Hf Hfree.
  assert (Hf4 : fulfils 4 (oracle w) = true) by now do 2 apply fulfils_weaken.
  unfold insertRecordsWithDeduplication, outcomeOf.
  change (RETRY_ATTEMPTS - 0)%nat with 3%nat. cbn [insertLoop].
  unfold bind at 1. unfold insertAttempt, tryCatch. unfold bind at 1.
  rewrite acquireSyncLock_free by assumption. cbn [negb].
  unfold bind at 1.
  rewrite retrieveAllData_fulfilled
    by (fields; eapply fulfils_1; do 4 apply fulfils_tl; exact Hf).
  cbn [success payload]. unfold bind at 1, dateNow at 1. unfold bind at 1.
  rewrite persistData_fulfilled
    by (fields; eapply fulfils_1; do 5 apply fulfils_tl; exact Hf).
  unfold bind at 1.
  match goal with
  | |- context [releaseSyncLock ?w1] =>
      pose proof (releaseSyncLock_returns w1) as Hrelease;
      unfold outcomeOf in Hrelease;
      destruct (releaseSyncLock w1) as [o w2]; simpl in Hrelease; subst o
  end.
  cbn [success negb ret fst]. unfold insertedCountFor.
  cbn [crm_extracted_data logEffect writeData documentOrDefault].
  now rewrite getCollection_setSyncInProgress.
Qed.

(** ** Deleting an id that is not there *)

Lemma retrieveAllData_cases w :
  retrieveAllData w =
  (Returned {| success := true;
               payload := Some (documentOrDefault (crm_extracted_data w));
               errorMessage := None |},
   logEffect (StorageGet CRM_DATA true) (replied w))
  \/ exists message,
       retrieveAllData w =
       (Returned {| success := false; payload := None;
                    errorMessage := Some message |},
        logEffect (StorageGet CRM_DATA false) (replied w)).
Proof.
  unfold retrieveAllData, tryCatch, bind, ret, storageGetData.
  destruct (storageCall_cases (StorageGet CRM_DATA)
              (fun w0 => (crm_extracted_data w0, w0)) w) as [[error E]|E];
    rewrite E; cbn [fst snd].
  - right. now eexists.
  - left. now rewrite crm_replied.
Qed.

Lemma removeRecord_untouched entityType recordId w :
  ~ In recordId
      (ids (getCollection entityType (documentOrDefault (crm_extracted_data w)))) ->
  (exists r, outcomeOf (removeRecord entityType recordId) w = Returned r
             /\ success r = false)
  /\ crm_extracted_data (worldAfter (removeRecord entityType recordId) w)
     = crm_extracted_data w
  /\ sync_lock_timestamp (worldAfter (removeRecord entityType recordId) w)
     = sync_lock_timestamp w
  /\ exists fulfilled,
       effects (worldAfter (removeRecord entityType recordId) w)
       = effects w ++ [StorageGet CRM_DATA fulfilled].
Proof.
  intros Hmissing. unfold outcomeOf, worldAfter, removeRecord, tryCatch, bind.
  destruct (retrieveAllData_cases w) as [E|[message E]]; rewrite E;
    cbn [success payload].
  - rewrite (withoutId_absent _ _ Hmissing), Nat.eqb_refl. cbn [ret fst snd].
    split; [eexists; split; reflexivity|]. fields. repeat split. now eexists.
  - cbn [ret fst snd].
    split; [eexists; split; reflexivity|]. fields. repeat split. now eexists.
Qed.

Lemma removeRecord_not_found entityType recordId w :
  ~ In recordId
      (ids (getCollection entityType (documentOrDefault (crm_extracted_data w)))) ->
  fulfils 1 (oracle w) = true ->
  outcomeOf (removeRecord entityType recordId) w =
  Returned {| success := false;
              payload := None;
              errorMessage := Some "Record not found" |}.
Proof.
  intros Hmissing Hf. unfold outcomeOf, removeRecord, tryCatch, bind.
  rewrite retrieveAllData_fulfilled by assumption. cbn [success payload].
  now rewrite (withoutId_absent _ _ Hmissing), Nat.eqb_refl.
Qed.

Lemma fulfils_1_false l :
  fulfils 1 l = false -> exists error, rejection (hd promptReply l) = Some error.
Proof.
  destruct l as [|reply rest]; simpl; [discriminate|].
  destruct (rejection reply) as [error|]; [now exists error | discriminate].
Qed.

(** A deletion whose read of the document is rejected: the failure result
    of [retrieveAllData] is answered by the second guard of [removeRecord]. *)
Lemma removeRecord_read_rejected entityType recordId w :
  fulfils 1 (oracle w) = false ->
  outcomeOf (removeRecord entityType recordId) w =
  Returned {| success := false;
              payload := None;
              errorMessage := Some "Failed to retrieve current data" |}.
Proof.
  intros Hf. destruct (fulfils_1_false _ Hf) as [error Hr].
  unfold outcomeOf, removeRecord, tryCatch, bind, retrieveAllData, storageGetData.
  unfold tryCatch, bind.
  now rewrite (storageCall_rejected _ _ w Hr).
Qed.

Lemma delayExecution_run ms w :
  delayExecution ms w = (Returned tt, worldAfter (delayExecution ms) w).
Proof. reflexivity. Qed.



(* ================================================================= *)
(** * The claims *)
(* ================================================================= *)

(** C1, as stated, fails. With the existing record [a@100] and the batch
    [a@150; a@200] the incoming record [a@150] is newer than the existing one
    and is not kept; with the batch [a@50; a@200] the incoming record [a@50]
    is not newer and the existing record is not kept; and with a repeated id
    in the existing collection, [a@100; a@10], and the batch [a@50], the
    existing record [a@100] is not kept although the incoming one is older. *)
Lemma recency_wins_fails_on_repeated_ids :
  let e := exampleContact "a" 100 "X" in
  (let n := exampleContact "a" 150 "Y" in
   let B := [n; exampleContact "a" 200 "Z"] in
   In e [e] /\ In n B /\ id n = id e
   /\ (extractedAt n > extractedAt e)%Z
   /\ ~ In n (performDeduplication [e] B))
  /\ (let n := exampleContact "a" 50 "Y" in
      let B := [n; exampleContact "a" 200 "Z"] in
      In e [e] /\ In n B /\ id n = id e
      /\ (extractedAt n <= extractedAt e)%Z
      /\ ~ In e (performDeduplication [e] B))
  /\ (let n := exampleContact "a" 50 "Y" in
      let E := [e; exampleContact "a" 10 "W"] in
      In e E /\ In n [n] /\ id n = id e
      /\ (extractedAt n <= extractedAt e)%Z
      /\ ~ In e (performDeduplication E [n])).
Proof.
  cbv zeta. repeat split; simpl; auto; try lia;
    vm_compute; intros [Heq|[]]; discriminate Heq.
Qed.

(** C1, amended: when the existing collection has unique ids and holds [e],
    and the batch holds exactly one record [n] of that id, the output holds
    under that id the incoming record if [extractedAt n > extractedAt e] and
    the existing record if [extractedAt n <= extractedAt e]; the other of the
    two is then not in the output (unless they are the same record). *)
Theorem recency_wins {T : Type} `{EntityRecord T} (E B : list T) (e n : T) :
  uniqueIds E -> In e E -> filter (hasId (id e)) B = [n] ->
  let merged := performDeduplication E B in
  recordWithId (id e) merged
  = Some (if (extractedAt n >? extractedAt e)%Z then n else e)
  /\ ((extractedAt n > extractedAt e)%Z -> In n merged /\ ~ In e merged)
  /\ ((extractedAt n <= extractedAt e)%Z ->
      In e merged /\ (In n merged -> n = e)).
Proof.
  intros Hu He Hn merged.
  pose proof (@recordWithId_single_incoming T _ E B e n Hu He Hn) as Hkept.
  fold merged in Hkept.
  assert (Hmerged : uniqueIds merged) by apply performDeduplication_uniqueIds.
  assert (Hid : id n = id e).
  { apply hasId_true. eapply proj2. apply filter_In. rewrite Hn. simpl. auto. }
  split; [exact Hkept|]. split; intros Hcmp.
  - destruct (extractedAt n >? extractedAt e)%Z eqn:Egt; [|lia].
    split.
    + apply recordWithId_Some in Hkept. tauto.
    + intros Hin. apply (@in_iff_recordWithId T _ merged e Hmerged) in Hin.
      rewrite Hkept in Hin. injection Hin as ->. lia.
  - destruct (extractedAt n >? extractedAt e)%Z eqn:Egt; [lia|].
    split.
    + apply recordWithId_Some in Hkept. tauto.
    + intros Hin. apply (@in_iff_recordWithId T _ merged n Hmerged) in Hin.
      rewrite Hid, Hkept in Hin. now injection Hin.
Qed.

Lemma recency_wins_witness :
  let e := exampleContact "a" 100 "X" in
  let n := exampleContact "a" 150 "Y" in
  let E := [e; exampleContact "c" 5 "V"] in
  let B := [exampleContact "b" 10 "Z"; n] in
  uniqueIds E /\ In e E /\ filter (hasId (id e)) B = [n]
  /\ recordWithId "a" (performDeduplication E B) = Some n.
Proof.
  cbv zeta.
  assert (Hu : uniqueIds [exampleContact "a" 100 "X"; exampleContact "c" 5 "V"]).
  { repeat constructor; simpl; intuition discriminate. }
  split; [exact Hu|]. split; [simpl; auto|]. split; [reflexivity|].
  exact (proj1 (@recency_wins ACContact _
                  [exampleContact "a" 100 "X"; exampleContact "c" 5 "V"]
                  [exampleContact "b" 10 "Z"; exampleContact "a" 150 "Y"]
                  (exampleContact "a" 100 "X") (exampleContact "a" 150 "Y")
                  Hu (or_introl eq_refl) eq_refl)).
Defined.

(** C2: the output of the merge never holds two records of one id; hence
    the stored document keeps the uniqueness invariant through every
    sequence of insertions, removals and clears, and has it after every such
    sequence that starts from the absent or the default document. *)
Theorem uniqueness_invariant :
  (forall (T : Type) (R : EntityRecord T) (existingRecords newRecords : list T),
      uniqueIds (performDeduplication existingRecords newRecords))
  /\ (forall ops w,
         storeHasUniqueIds w -> storeHasUniqueIds (runOperations ops w))
  /\ (forall ops w,
         crm_extracted_data w = None
         \/ crm_extracted_data w = Some DEFAULT_STORAGE_STATE ->
         forall entityType,
           NoDup (map id (getCollection entityType
                            (documentOrDefault
                               (crm_extracted_data (runOperations ops w)))))).
Proof.
  split; [|split].
  - intros T R E B. apply performDeduplication_uniqueIds.
  - intros ops w. apply runOperations_keeps_uniqueIds.
  - intros ops w Hstart.
    apply (@runOperations_keeps_uniqueIds ops w).
    unfold storeHasUniqueIds. destruct Hstart as [-> | ->]; apply uniqueIds_default.
Qed.

Lemma uniqueness_invariant_witness :
  let w := exampleWorld None None 5000 [promptReply; rejectingReply] in
  let ops :=
    [Insert Contacts [exampleContact "a" 100 "X"; exampleContact "a" 150 "Y"];
     Remove Contacts "b";
     Insert Contacts [exampleContact "a" 120 "Z"; exampleContact "b" 1 "W"]] in
  crm_extracted_data w = None
  /\ NoDup (map id (contacts (documentOrDefault
                               (crm_extracted_data (runOperations ops w))))).
Proof.
  cbv zeta. split; [reflexivity|].
  exact (proj2 (proj2 uniqueness_invariant)
           [Insert Contacts [exampleContact "a" 100 "X"; exampleContact "a" 150 "Y"];
            Remove Contacts "b";
            Insert Contacts [exampleContact "a" 120 "Z"; exampleContact "b" 1 "W"]]
           (exampleWorld None None 5000 [promptReply; rejectingReply])
           (or_introl eq_refl) Contacts).
Defined.

(** C3: a successful [insertRecordsWithDeduplication] reports the size of
    the merged collection minus the size of the stored one, floored at zero;
    it does succeed when the store fulfils its calls and no fresh lock is in
    the way; the count is the size of the batch for a batch of pairwise
    distinct ids merged into an empty collection, and zero for a batch whose
    ids all exist already. *)
Theorem insertion_count_correct entityType (newRecords : list (RecordOf entityType)) w :
  let existingRecords :=
    getCollection entityType (documentOrDefault (crm_extracted_data w)) in
  let reported := insertedCountFor existingRecords newRecords in
  (forall r,
      outcomeOf (insertRecordsWithDeduplication entityType newRecords) w = Returned r ->
      success r = true -> payload r = Some reported)
  /\ (fulfils 6 (oracle w) = true ->
      lockIsHeld (sync_lock_timestamp w) (lockCheckTime w) = false ->
      outcomeOf (insertRecordsWithDeduplication entityType newRecords) w
      = Returned {| success := true; payload := Some reported;
                    errorMessage := None |})
  /\ reported
     = Z.max 0 (Z.of_nat (length (performDeduplication existingRecords newRecords))
                - Z.of_nat (length existingRecords))
  /\ (existingRecords = [] -> uniqueIds newRecords ->
      reported = Z.of_nat (length newRecords))
  /\ ((forall r, In r newRecords -> In (id r) (ids existingRecords)) ->
      reported = 0%Z).
Proof.
  intros E reported. split; [|split; [|split; [|split]]].
  - intros r. apply insertRecordsWithDeduplication_reports.
  - apply insertRecordsWithDeduplication_succeeds.
  - reflexivity.
  - intros HE Hu. unfold reported, insertedCountFor. rewrite HE.
    rewrite performDeduplication_nil_l by exact Hu. simpl. lia.
  - intros Hknown. unfold reported, insertedCountFor.
    assert (Hincl : incl (ids newRecords) (ids E)).
    { intros i Hi. apply in_map_iff in Hi. destruct Hi as (r & <- & Hr). auto. }
    pose proof (performDeduplication_known_length E newRecords Hincl). lia.
Qed.

Lemma insertion_count_correct_witness :
  let w := exampleWorld (Some exampleDocument) (Some 1000%Z) 50000 [] in
  let batch := [exampleContact "a" 50 "Y"; exampleContact "b" 10 "Z"] in
  let known := [exampleContact "a" 500 "Y"] in
  fulfils 6 (oracle w) = true
  /\ lockIsHeld (sync_lock_timestamp w) (lockCheckTime w) = false
  /\ outcomeOf (insertRecordsWithDeduplication Contacts batch) w
     = Returned {| success := true; payload := Some 1%Z; errorMessage := None |}
  /\ (forall r, In r known -> In (id r) (ids (contacts exampleDocument)))
  /\ insertedCountFor (contacts exampleDocument) known = 0%Z.
Proof.
  cbv zeta. split; [reflexivity|]. split; [reflexivity|]. split.
  - exact (proj1 (proj2
      (@insertion_count_correct Contacts
         [exampleContact "a" 50 "Y"; exampleContact "b" 10 "Z"]
         (exampleWorld (Some exampleDocument) (Some 1000%Z) 50000 [])))
      eq_refl eq_refl).
  - assert (Hknown : forall r : ACContact,
               In r [exampleContact "a" 500 "Y"] ->
               In (id r) (ids (contacts exampleDocument))).
    { intros r [<-|[]]. simpl. auto. }
    split; [exact Hknown|].
    exact (proj2 (proj2 (proj2 (proj2
      (@insertion_count_correct Contacts [exampleContact "a" 500 "Y"]
         (exampleWorld (Some exampleDocument) (Some 1000%Z) 50000 [])))))
      Hknown).
Defined.




(** C5: merging a batch a second time into the result of the first merge
    changes nothing, order included. *)
Theorem merge_idempotent {T : Type} `{EntityRecord T}
  (existingRecords newRecords : list T) :
  performDeduplication (performDeduplication existingRecords newRecords) newRecords
  = performDeduplication existingRecords newRecords.
Proof. apply performDeduplication_idempotent. Qed.

(** C6, as stated, fails, each time with the document and the lock key
    readable. No lock timestamp is stored and the write of the lock key is
    rejected: the call returns false. The stored timestamp is 0 and its age
    is 1000 ms: the call returns true, because a zero is falsy. No lock is
    stored and the write of the document is rejected: the call returns true
    and the flag is not set. *)
Lemma acquireSyncLock_departs_from_fresh_lock_rule :
  (let w := exampleWorld None None 50000
              [promptReply; promptReply; rejectingReply] in
   fulfils 2 (oracle w) = true
   /\ sync_lock_timestamp w = None
   /\ outcomeOf acquireSyncLock w = Returned false)
  /\ (let w := exampleWorld None (Some 0%Z) 1000 [] in
      fulfils 2 (oracle w) = true
      /\ sync_lock_timestamp w = Some 0%Z
      /\ (lockCheckTime w - 0 < lockTimeout)%Z
      /\ outcomeOf acquireSyncLock w = Returned true)
  /\ (let w := exampleWorld None None 50000
                 [promptReply; promptReply; promptReply; rejectingReply] in
      fulfils 2 (oracle w) = true
      /\ sync_lock_timestamp w = None
      /\ outcomeOf acquireSyncLock w = Returned true
      /\ crm_extracted_data (worldAfter acquireSyncLock w) = None).
Proof. cbv zeta. repeat split. Qed.

(** C6, amended: take a call of [acquireSyncLock] in which the document and
    the lock key can be read and the stored timestamp, if there is one, is
    not zero.  If a lock timestamp is stored whose age is strictly less
    than 30 000 ms, the call returns false, leaving both keys as they were
    after two reads and no write.  When the store also fulfils the two
    writes, the call returns false iff such a timestamp is stored, and
    otherwise (no timestamp, or a stale one) it writes the current time
    under the lock key, stores the document with [syncInProgress] true and
    returns true, whatever the value of the stored flag.  When no such
    timestamp is stored and the write of the lock key is rejected, the call
    returns false and leaves both keys as they were. *)
Theorem acquireSyncLock_condition w :
  fulfils 2 (oracle w) = true ->
  sync_lock_timestamp w <> Some 0%Z ->
  let w' := worldAfter acquireSyncLock w in
  (lockWithinTimeout w ->
      outcomeOf acquireSyncLock w = Returned false
      /\ crm_extracted_data w' = crm_extracted_data w
      /\ sync_lock_timestamp w' = sync_lock_timestamp w
      /\ effects w' = effects w ++ [StorageGet CRM_DATA true; StorageGet SYNC_LOCK true])
  /\ (fulfils 4 (oracle w) = true ->
      (outcomeOf acquireSyncLock w = Returned false <-> lockWithinTimeout w)
      /\ (~ lockWithinTimeout w ->
          outcomeOf acquireSyncLock w = Returned true
          /\ sync_lock_timestamp w' = Some (lockCheckTime w)
          /\ crm_extracted_data w'
             = Some (setSyncInProgress true
                       (documentOrDefault (crm_extracted_data w)))
          /\ syncInProgress (documentOrDefault (crm_extracted_data w')) = true
          /\ effects w'
             = effects w ++ [StorageGet CRM_DATA true; StorageGet SYNC_LOCK true;
                             StorageSet SYNC_LOCK true; StorageSet CRM_DATA true]))
  /\ (~ lockWithinTimeout w -> fulfils 3 (oracle w) = false ->
      outcomeOf acquireSyncLock w = Returned false
      /\ crm_extracted_data w' = crm_extracted_data w
      /\ sync_lock_timestamp w' = sync_lock_timestamp w
      /\ effects w'
         = effects w ++ [StorageGet CRM_DATA true; StorageGet SYNC_LOCK true;
                         StorageSet SYNC_LOCK false]).
Proof.
  intros Hf2 Hnz w'.
  assert (Hheld : lockWithinTimeout w ->
                  outcomeOf acquireSyncLock w = Returned false
                  /\ crm_extracted_data w' = crm_extracted_data w
                  /\ sync_lock_timestamp w' = sync_lock_timestamp w
                  /\ effects w' = effects w ++ [StorageGet CRM_DATA true;
                                                StorageGet SYNC_LOCK true]).
  { intros Hwithin. apply (@lockIsHeld_within w Hnz) in Hwithin.
    unfold w', outcomeOf, worldAfter.
    rewrite (acquireSyncLock_held w Hf2 Hwithin). fields.
    rewrite <- app_assoc. repeat split. }
  assert (Hnot : ~ lockWithinTimeout w ->
                 lockIsHeld (sync_lock_timestamp w) (lockCheckTime w) = false).
  { intros Hstale.
    destruct (lockIsHeld (sync_lock_timestamp w) (lockCheckTime w)) eqn:E;
      [|reflexivity].
    exfalso. apply Hstale. now apply (@lockIsHeld_within w Hnz). }
  split; [exact Hheld|]. split.
  - intros Hf.
    assert (Hfree : ~ lockWithinTimeout w ->
                    outcomeOf acquireSyncLock w = Returned true
                    /\ sync_lock_timestamp w' = Some (lockCheckTime w)
                    /\ crm_extracted_data w'
                       = Some (setSyncInProgress true
                                 (documentOrDefault (crm_extracted_data w)))
                    /\ syncInProgress (documentOrDefault (crm_extracted_data w'))
                       = true
                    /\ effects w'
                       = effects w ++ [StorageGet CRM_DATA true;
                                       StorageGet SYNC_LOCK true;
                                       StorageSet SYNC_LOCK true;
                                       StorageSet CRM_DATA true]).
    { intros Hstale. unfold w', outcomeOf, worldAfter.
      rewrite (acquireSyncLock_free w Hf (Hnot Hstale)). fields.
      rewrite <- !app_assoc. repeat split. }
    split; [|exact Hfree]. split.
    + intros Hfalse.
      destruct (lockIsHeld (sync_lock_timestamp w) (lockCheckTime w)) eqn:E.
      * now apply (@lockIsHeld_within w Hnz).
      * assert (Hstale : ~ lockWithinTimeout w).
        { intros Hwithin. apply (@lockIsHeld_within w Hnz) in Hwithin. congruence. }
        destruct (Hfree Hstale) as [Htrue _]. congruence.
    + intros Hwithin. now apply Hheld.
  - intros Hstale Hrej. unfold w', outcomeOf, worldAfter.
    rewrite (acquireSyncLock_lock_write_rejected w Hf2 Hrej (Hnot Hstale)). fields.
    rewrite <- !app_assoc. repeat split.
Qed.

Lemma acquireSyncLock_condition_witness :
  let stale := exampleWorld (Some exampleDocument) (Some 20000%Z) 50000 [] in
  let refused := exampleWorld (Some exampleDocument) (Some 20000%Z) 50000
                   [promptReply; promptReply; rejectingReply] in
  fulfils 4 (oracle stale) = true
  /\ sync_lock_timestamp stale <> Some 0%Z
  /\ fulfils 2 (oracle contendedWorld) = true
  /\ sync_lock_timestamp contendedWorld <> Some 0%Z
  /\ fulfils 2 (oracle refused) = true
  /\ fulfils 3 (oracle refused) = false
  /\ outcomeOf acquireSyncLock stale = Returned true
  /\ outcomeOf acquireSyncLock contendedWorld = Returned false
  /\ outcomeOf acquireSyncLock refused = Returned false.
Proof.
  cbv zeta.
  assert (Hnz : Some 20000%Z <> Some 0%Z) by discriminate.
  assert (Hnz' : sync_lock_timestamp contendedWorld <> Some 0%Z) by discriminate.
  split; [reflexivity|]. split; [exact Hnz|]. split; [reflexivity|].
  split; [exact Hnz'|]. split; [reflexivity|]. split; [reflexivity|].
  split; [|split].
  - apply (proj2 (proj1 (proj2 (acquireSyncLock_condition
                                  (exampleWorld (Some exampleDocument)
                                     (Some 20000%Z) 50000 [])
                                  eq_refl Hnz)) eq_refl)).
    intros (timestamp & Hlock & Hage).
    injection Hlock as <-. vm_compute in Hage. discriminate Hage.
  - apply (proj1 (acquireSyncLock_condition contendedWorld eq_refl Hnz')).
    exists 49000%Z. split; reflexivity.
  - apply (proj2 (proj2 (acquireSyncLock_condition
                           (exampleWorld (Some exampleDocument) (Some 20000%Z) 50000
                              [promptReply; promptReply; rejectingReply])
                           eq_refl Hnz))); [|reflexivity].
    intros (timestamp & Hlock & Hage).
    injection Hlock as <-. vm_compute in Hage. discriminate Hage.
Defined.



(** C8, as stated, fails: with no record of the id in the stored collection
    and the read of the document rejected, [removeRecord] returns the
    failure "Failed to retrieve current data", which is not a "not found"
    message. *)
Lemma removeRecord_missing_id_without_not_found :
  let w := exampleWorld (Some exampleDocument) None 50000 [rejectingReply] in
  ~ In "missing-id" (ids (getCollection Contacts
                            (documentOrDefault (crm_extracted_data w))))
  /\ outcomeOf (removeRecord Contacts "missing-id") w
     = Returned {| success := false; payload := None;
                   errorMessage := Some "Failed to retrieve current data" |}
  /\ outcomeOf (removeRecord Contacts "missing-id") w
     <> Returned {| success := false; payload := None;
                    errorMessage := Some "Record not found" |}.
Proof.
  cbv zeta. split; [|split].
  - simpl. intros [Heq|[]]. discriminate Heq.
  - reflexivity.
  - discriminate.
Qed.

(** C8, amended: [removeRecord] on a collection that holds no record of the
    given id returns a failure result, never throws, writes to neither key
    and leaves the store as it was after its one read; the message is
    "Record not found" when that read is fulfilled, and "Failed to retrieve
    current data" when it is rejected. *)
Theorem removeRecord_missing_id entityType recordId w :
  ~ In recordId
      (ids (getCollection entityType (documentOrDefault (crm_extracted_data w)))) ->
  let w' := worldAfter (removeRecord entityType recordId) w in
  (exists r, outcomeOf (removeRecord entityType recordId) w = Returned r
             /\ success r = false)
  /\ (fulfils 1 (oracle w) = true ->
      outcomeOf (removeRecord entityType recordId) w
      = Returned {| success := false; payload := None;
                    errorMessage := Some "Record not found" |})
  /\ (fulfils 1 (oracle w) = false ->
      outcomeOf (removeRecord entityType recordId) w
      = Returned {| success := false; payload := None;
                    errorMessage := Some "Failed to retrieve current data" |})
  /\ crm_extracted_data w' = crm_extracted_data w
  /\ sync_lock_timestamp w' = sync_lock_timestamp w
  /\ exists es, effects w' = effects w ++ es /\ existsb isWrite es = false.
Proof.
  intros Hmissing w'.
  destruct (removeRecord_untouched entityType recordId w Hmissing)
    as (Hfail & Hd & Hl & fulfilled & He).
  split; [exact Hfail|]. split; [now apply removeRecord_not_found|].
  split; [apply removeRecord_read_rejected|].
  split; [exact Hd|]. split; [exact Hl|].
  exists [StorageGet CRM_DATA fulfilled]. split; [exact He | reflexivity].
Qed.

Lemma removeRecord_missing_id_witness :
  let w := exampleWorld (Some exampleDocument) None 50000 [] in
  let w0 := exampleWorld (Some exampleDocument) None 50000 [rejectingReply] in
  ~ In "missing-id" (ids (getCollection Contacts
                            (documentOrDefault (crm_extracted_data w))))
  /\ fulfils 1 (oracle w) = true
  /\ outcomeOf (removeRecord Contacts "missing-id") w
     = Returned {| success := false; payload := None;
                   errorMessage := Some "Record not found" |}
  /\ crm_extracted_data (worldAfter (removeRecord Contacts "missing-id") w)
     = Some exampleDocument
  /\ fulfils 1 (oracle w0) = false
  /\ outcomeOf (removeRecord Contacts "missing-id") w0
     = Returned {| success := false; payload := None;
                   errorMessage := Some "Failed to retrieve current data" |}
  /\ crm_extracted_data (worldAfter (removeRecord Contacts "missing-id") w0)
     = Some exampleDocument.
Proof.
  cbv zeta.
  assert (Hmissing :
            ~ In "missing-id"
                (ids (getCollection Contacts (documentOrDefault (Some exampleDocument))))).
  { simpl. intros [Heq|[]]. discriminate Heq. }
  pose proof (@removeRecord_missing_id Contacts "missing-id"
                (exampleWorld (Some exampleDocument) None 50000 []) Hmissing)
    as (_ & Hmessage & _ & Hdoc & _).
  pose proof (@removeRecord_missing_id Contacts "missing-id"
                (exampleWorld (Some exampleDocument) None 50000 [rejectingReply])
                Hmissing)
    as (_ & _ & Hmessage0 & Hdoc0 & _).
  split; [exact Hmissing|]. split; [reflexivity|].
  split; [exact (Hmessage eq_refl)|]. split; [exact Hdoc|].
  split; [reflexivity|]. split; [exact (Hmessage0 eq_refl) | exact Hdoc0].
Defined.

(** C9: when the read of the document is fulfilled and no document is
    stored, [retrieveAllData] returns a success whose payload is the default
    empty document. *)
Theorem retrieveAllData_get_or_default w :
  fulfils 1 (oracle w) = true ->
  crm_extracted_data w = None ->
  outcomeOf retrieveAllData w
  = Returned {| success := true; payload := Some DEFAULT_STORAGE_STATE;
                errorMessage := None |}
  /\ DEFAULT_STORAGE_STATE
     = {| contacts := []; deals := []; tasks := [];
          lastSync := 0; syncInProgress := false |}
  /\ crm_extracted_data (worldAfter retrieveAllData w) = None.
Proof.
  intros Hf Habsent. unfold outcomeOf, worldAfter.
  rewrite retrieveAllData_fulfilled by exact Hf. rewrite Habsent.
  fields. auto.
Qed.

Lemma retrieveAllData_get_or_default_witness :
  let w := exampleWorld None (Some 49000%Z) 50000 [] in
  fulfils 1 (oracle w) = true /\ crm_extracted_data w = None
  /\ outcomeOf retrieveAllData w
     = Returned {| success := true; payload := Some DEFAULT_STORAGE_STATE;
                   errorMessage := None |}.
Proof.
  cbv zeta. split; [reflexivity|]. split; [reflexivity|].
  exact (proj1 (@retrieveAllData_get_or_default
                  (exampleWorld None (Some 49000%Z) 50000 []) eq_refl eq_refl)).
Defined.

(** C10: every id of the existing collection occurs in the output of the
    merge, and the output is at least as long as the number of distinct
    existing ids; an existing collection with unique ids is returned
    unchanged by an empty batch and is never longer than the output, so the
    difference that [insertRecordsWithDeduplication] computes is not
    negative and the floor at zero does nothing; this is the case for every
    document the three mutations produce from the absent or default one. *)
Theorem merge_never_shrinks :
  (forall (T : Type) (R : EntityRecord T) (existingRecords newRecords : list T),
      (forall r, In r existingRecords ->
         In (id r) (ids (performDeduplication existingRecords newRecords)))
      /\ (length (nodup string_dec (ids existingRecords))
          <= length (performDeduplication existingRecords newRecords))%nat
      /\ (uniqueIds existingRecords ->
          performDeduplication existingRecords [] = existingRecords
          /\ (0 <= Z.of_nat (length (performDeduplication existingRecords newRecords))
                   - Z.of_nat (length existingRecords))%Z
          /\ insertedCountFor existingRecords newRecords
             = (Z.of_nat (length (performDeduplication existingRecords newRecords))
                - Z.of_nat (length existingRecords))%Z))
  /\ (forall ops w entityType (newRecords : list (RecordOf entityType)),
         crm_extracted_data w = None
         \/ crm_extracted_data w = Some DEFAULT_STORAGE_STATE ->
         let existingRecords :=
           getCollection entityType
             (documentOrDefault (crm_extracted_data (runOperations ops w))) in
         (0 <= Z.of_nat (length (performDeduplication existingRecords newRecords))
               - Z.of_nat (length existingRecords))%Z).
Proof.
  split.
  - intros T R E B. split; [|split].
    + intros r Hr. apply performDeduplication_keeps_ids. now apply in_map.
    + apply performDeduplication_length_lower.
    + intros Hu. pose proof (performDeduplication_never_shrinks B Hu) as Hlen.
      split; [now apply performDeduplication_nil_r|].
      unfold insertedCountFor. split; lia.
  - intros ops w entityType newRecords Hstart E.
    assert (Hu : uniqueIds E).
    { apply (@runOperations_keeps_uniqueIds ops w).
      unfold storeHasUniqueIds.
      destruct Hstart as [-> | ->]; apply uniqueIds_default. }
    pose proof (performDeduplication_never_shrinks newRecords Hu). lia.
Qed.

Lemma merge_never_shrinks_witness :
  let E := [exampleContact "a" 100 "X"; exampleContact "b" 7 "U"] in
  let B := [exampleContact "a" 150 "Y"] in
  uniqueIds E
  /\ performDeduplication E [] = E
  /\ insertedCountFor E B = 0%Z.
Proof.
  cbv zeta.
  assert (Hu : uniqueIds [exampleContact "a" 100 "X"; exampleContact "b" 7 "U"])
    by (repeat constructor; simpl; intuition discriminate).
  pose proof (proj2 (proj2 (proj1 merge_never_shrinks ACContact _
                              [exampleContact "a" 100 "X"; exampleContact "b" 7 "U"]
                              [exampleContact "a" 150 "Y"])) Hu)
    as (Hnil & _ & Hcount).
  split; [exact Hu|]. split; [exact Hnil|]. rewrite Hcount. reflexivity.
Defined.

(* ================================================================= *)
(** * Further properties of the storage service *)
(* ================================================================= *)

Lemma fulfils_1_iff l : fulfils 1 l = true <-> rejection (hd promptReply l) = None.
Proof.
  destruct l as [|reply rest]; simpl; [tauto|].
  destruct (rejection reply); split; congruence.
Qed.

Lemma elapsed_nonneg n l : (0 <= elapsed n l)%Z.
Proof.
  revert l. induction n as [|n IH]; intros [|reply rest]; simpl; try lia.
  specialize (IH rest). lia.
Qed.

Lemma answer_replied k w : answer k (replied w) = answer (S k) w.
Proof.
  unfold answer. rewrite oracle_replied. destruct (oracle w); [|reflexivity].
  now destruct k.
Qed.

Lemma answer_0 w : hd promptReply (oracle w) = answer 0 w.
Proof. unfold answer. now destruct (oracle w). Qed.

Lemma retrieveAllData_rejected w error :
  rejection (answer 0 w) = Some error ->
  retrieveAllData w =
  (Returned {| success := false; payload := None;
               errorMessage := Some (messageOr "Failed to retrieve storage data" error) |},
   logEffect (StorageGet CRM_DATA false) (replied w)).
Proof.
  intros Hr. rewrite <- answer_0 in Hr.
  unfold retrieveAllData, tryCatch, bind, storageGetData.
  now rewrite (storageCall_rejected _ _ w Hr).
Qed.

Lemma persistData_rejected d w error :
  rejection (answer 0 w) = Some error ->
  persistData d w =
  (Returned {| success := false; payload := None;
               errorMessage := Some (messageOr "Failed to persist data" error) |},
   logEffect (StorageSet CRM_DATA false) (replied w)).
Proof.
  intros Hr. rewrite <- answer_0 in Hr.
  unfold persistData, tryCatch, bind, storageSetData.
  now rewrite (storageCall_rejected _ _ w Hr).
Qed.

Lemma persistData_cases d w :
  persistData d w =
  (Returned {| success := true; payload := Some tt; errorMessage := None |},
   logEffect (StorageSet CRM_DATA true) (writeData (Some d) (replied w)))
  \/ exists message,
       persistData d w =
       (Returned {| success := false; payload := None;
                    errorMessage := Some message |},
        logEffect (StorageSet CRM_DATA false) (replied w)).
Proof.
  destruct (rejection (answer 0 w)) as [error|] eqn:Hr.
  - right. exists (messageOr "Failed to persist data" error).
    now apply persistData_rejected.
  - left. apply persistData_fulfilled. apply fulfils_1_iff.
    now rewrite answer_0.
Qed.

(** The world [releaseSyncLock] leaves when its three calls are fulfilled. *)
Lemma releaseSyncLock_fulfilled w :
  fulfils 3 (oracle w) = true ->
  releaseSyncLock w =
  (Returned tt,
   logEffect (StorageSet CRM_DATA true)
     (writeData
        (Some (setSyncInProgress false (documentOrDefault (crm_extracted_data w))))
        (replied
           (logEffect (StorageGet CRM_DATA true)
              (replied
                 (logEffect (StorageRemove SYNC_LOCK true)
                    (writeLock None (replied w)))))))).
Proof.
  intros Hf. unfold releaseSyncLock, tryCatch, bind, storageRemoveLock.
  rewrite storageCall_fulfilled by (eapply fulfils_1; eauto). cbn [fst snd].
  rewrite retrieveAllData_fulfilled
    by (fields; eapply fulfils_1, fulfils_tl; eauto).
  cbn [success payload].
  rewrite persistData_fulfilled
    by (fields; eapply fulfils_1, fulfils_tl, fulfils_tl; eauto).
  fields. reflexivity.
Qed.

Lemma removeRecord_returns entityType recordId w :
  exists r, outcomeOf (removeRecord entityType recordId) w = Returned r.
Proof.
  unfold outcomeOf, removeRecord, tryCatch, bind.
  destruct (retrieveAllData_cases w) as [E|[message E]]; rewrite E;
    cbn [success payload].
  - destruct (_ =? _)%nat.
    + now eexists.
    + match goal with
      | |- context [persistData ?d ?w1] =>
          destruct (persistData_cases d w1) as [E1|[message E1]]; rewrite E1
      end; now eexists.
  - now eexists.
Qed.

Lemma clearAllRecords_cases w :
  (rejection (answer 0 w) = None
   /\ clearAllRecords w =
      (Returned {| success := true; payload := Some tt; errorMessage := None |},
       logEffect (StorageSet CRM_DATA true)
         (writeData (Some DEFAULT_STORAGE_STATE) (replied w))))
  \/ exists error,
       rejection (answer 0 w) = Some error
       /\ clearAllRecords w =
          (Returned {| success := false; payload := None;
                       errorMessage := Some (messageOr "Clear operation failed" error) |},
           logEffect (StorageSet CRM_DATA false) (replied w)).
Proof.
  unfold clearAllRecords, tryCatch, bind, storageSetData.
  destruct (rejection (answer 0 w)) as [error|] eqn:Hr.
  - right. exists error. split; [reflexivity|].
    rewrite <- answer_0 in Hr. now rewrite (storageCall_rejected _ _ w Hr).
  - left. split; [reflexivity|].
    rewrite <- answer_0 in Hr. apply fulfils_1_iff in Hr.
    now rewrite storageCall_fulfilled by exact Hr.
Qed.

(** No operation of the service lets a rejection of the store escape: under
    every answer of the store each of the seven operations returns. *)
Theorem storage_operations_never_throw w :
  (exists r, outcomeOf retrieveAllData w = Returned r)
  /\ (forall d, exists r, outcomeOf (persistData d) w = Returned r)
  /\ (exists lockAcquired, outcomeOf acquireSyncLock w = Returned lockAcquired)
  /\ outcomeOf releaseSyncLock w = Returned tt
  /\ (forall entityType newRecords, exists r,
         outcomeOf (insertRecordsWithDeduplication entityType newRecords) w
         = Returned r)
  /\ (forall entityType recordId, exists r,
         outcomeOf (removeRecord entityType recordId) w = Returned r)
  /\ (exists r, outcomeOf clearAllRecords w = Returned r).
Proof.
  assert (Hw : storeSatisfies (fun _ => True) w) by exact I.
  repeat split.
  - destruct (@retrieveAllData_keeps (fun _ => True) w Hw) as (_ & r & Hr & _).
    now exists r.
  - intros d.
    destruct (@persistData_keeps (fun _ => True) d I w Hw) as (_ & r & Hr).
    now exists r.
  - destruct (@acquireSyncLock_keeps (fun _ => True) (fun _ _ _ => I) w Hw)
      as (_ & b & Hb).
    now exists b.
  - apply releaseSyncLock_returns.
  - intros entityType newRecords.
    destruct (@insertLoop_keeps entityType newRecords (fun _ => True) (fun _ => True)
                (fun _ _ _ => I) (fun _ _ _ => I) (fun _ _ => I) (fun _ _ _ => I)
                RETRY_ATTEMPTS (RETRY_ATTEMPTS - 0) 0%nat w Hw)
      as (r & Hr & _).
    now exists r.
  - intros entityType recordId. apply removeRecord_returns.
  - unfold outcomeOf.
    destruct (clearAllRecords_cases w) as [[_ E]|(error & _ & E)]; rewrite E;
      now eexists.
Qed.

(** What [persistData] stores is what [retrieveAllData] then returns, when
    the store fulfils the two calls; the lock key is not touched. *)
Theorem persistData_then_retrieveAllData d w :
  fulfils 2 (oracle w) = true ->
  let w1 := worldAfter (persistData d) w in
  outcomeOf (persistData d) w
  = Returned {| success := true; payload := Some tt; errorMessage := None |}
  /\ outcomeOf retrieveAllData w1
     = Returned {| success := true; payload := Some d; errorMessage := None |}
  /\ sync_lock_timestamp (worldAfter retrieveAllData w1) = sync_lock_timestamp w.
Proof.
  intros Hf w1. unfold w1, outcomeOf, worldAfter.
  rewrite persistData_fulfilled by (eapply fulfils_1; eauto). cbn [fst snd].
  rewrite retrieveAllData_fulfilled
    by (fields; eapply fulfils_1, fulfils_tl; eauto).
  fields. auto.
Qed.

Lemma persistData_then_retrieveAllData_witness :
  let w := exampleWorld None (Some 49000%Z) 50000 [] in
  fulfils 2 (oracle w) = true
  /\ outcomeOf retrieveAllData (worldAfter (persistData exampleDocument) w)
     = Returned {| success := true; payload := Some exampleDocument;
                   errorMessage := None |}.
Proof.
  cbv zeta. split; [reflexivity|].
  exact (proj1 (proj2 (@persistData_then_retrieveAllData exampleDocument
                         (exampleWorld None (Some 49000%Z) 50000 []) eq_refl))).
Defined.

(** A rejected call of the store is reported as a failure result that
    carries the message of the [Error] thrown, or the fallback text of the
    operation when the value thrown is not an [Error]; the stored document
    stays as it was. *)
Theorem rejected_calls_are_reported w error :
  rejection (answer 0 w) = Some error ->
  outcomeOf retrieveAllData w
  = Returned {| success := false; payload := None;
                errorMessage :=
                  Some match error with
                       | ErrorObject message => message
                       | OtherThrown => "Failed to retrieve storage data"
                       end |}
  /\ (forall d,
         outcomeOf (persistData d) w
         = Returned {| success := false; payload := None;
                       errorMessage :=
                         Some match error with
                              | ErrorObject message => message
                              | OtherThrown => "Failed to persist data"
                              end |}
         /\ crm_extracted_data (worldAfter (persistData d) w) = crm_extracted_data w)
  /\ outcomeOf clearAllRecords w
     = Returned {| success := false; payload := None;
                   errorMessage :=
                     Some match error with
                          | ErrorObject message => message
                          | OtherThrown => "Clear operation failed"
                          end |}
  /\ crm_extracted_data (worldAfter clearAllRecords w) = crm_extracted_data w.
Proof.
  intros Hr. unfold outcomeOf, worldAfter. split; [|split; [|split]].
  - now rewrite (retrieveAllData_rejected w Hr).
  - intros d. rewrite (persistData_rejected d w Hr). fields. auto.
  - destruct (clearAllRecords_cases w) as [[Hnone _]|(error' & Hr' & E)].
    + congruence.
    + rewrite E. assert (error' = error) as -> by congruence. reflexivity.
  - destruct (clearAllRecords_cases w) as [[Hnone _]|(error' & Hr' & E)].
    + congruence.
    + rewrite E. fields. reflexivity.
Qed.

(** Reads the fields of a world off the calls that produced it, leaving
    [fulfils] and [elapsed] folded. *)
Ltac world_fields :=
  repeat (cbn [crm_extracted_data sync_lock_timestamp clock oracle effects
               logEffect writeData writeLock fst snd];
          autorewrite with world).

Lemma rejected_calls_are_reported_witness :
  let w := exampleWorld (Some exampleDocument) None 50000 [rejectingReply] in
  rejection (answer 0 w) = Some (ErrorObject "QUOTA_BYTES quota exceeded")
  /\ outcomeOf clearAllRecords w
     = Returned {| success := false; payload := None;
                   errorMessage := Some "QUOTA_BYTES quota exceeded" |}
  /\ crm_extracted_data (worldAfter clearAllRecords w) = Some exampleDocument.
Proof.
  cbv zeta. split; [reflexivity|].
  exact (proj2 (proj2 (@rejected_calls_are_reported
                         (exampleWorld (Some exampleDocument) None 50000 [rejectingReply])
                         (ErrorObject "QUOTA_BYTES quota exceeded") eq_refl))).
Defined.

Lemma sameData_setSyncInProgress b d d0 :
  sameData d d0 -> sameData (setSyncInProgress b d) d0.
Proof. intros H. exact H. Qed.

(** When the store fulfils its three calls, [releaseSyncLock] removes the
    lock key and stores the document with [syncInProgress] false and all
    else as it was; an absent document is thereby created as the default
    one. *)
Theorem releaseSyncLock_releases w :
  fulfils 3 (oracle w) = true ->
  let w' := worldAfter releaseSyncLock w in
  sync_lock_timestamp w' = None
  /\ crm_extracted_data w'
     = Some (setSyncInProgress false (documentOrDefault (crm_extracted_data w)))
  /\ sameData (documentOrDefault (crm_extracted_data w'))
       (documentOrDefault (crm_extracted_data w))
  /\ (crm_extracted_data w = None ->
      crm_extracted_data w' = Some DEFAULT_STORAGE_STATE)
  /\ effects w' = effects w ++ [StorageRemove SYNC_LOCK true;
                                StorageGet CRM_DATA true; StorageSet CRM_DATA true].
Proof.
  intros Hf w'. unfold w', worldAfter.
  rewrite releaseSyncLock_fulfilled by exact Hf. fields.
  rewrite <- !app_assoc. repeat split.
  intros ->. reflexivity.
Qed.

Lemma releaseSyncLock_releases_witness :
  fulfils 3 (oracle contendedWorld) = true
  /\ sync_lock_timestamp (worldAfter releaseSyncLock contendedWorld) = None
  /\ crm_extracted_data (worldAfter releaseSyncLock contendedWorld)
     = Some (setSyncInProgress false exampleDocument).
Proof.
  split; [reflexivity|].
  pose proof (@releaseSyncLock_releases contendedWorld eq_refl) as (Hl & Hd & _).
  split; [exact Hl | exact Hd].
Defined.

(** Releasing twice leaves the store as releasing once does. *)
Theorem releaseSyncLock_idempotent w :
  fulfils 6 (oracle w) = true ->
  let once := worldAfter releaseSyncLock w in
  let twice := worldAfter releaseSyncLock once in
  outcomeOf releaseSyncLock once = Returned tt
  /\ crm_extracted_data twice = crm_extracted_data once
  /\ sync_lock_timestamp twice = sync_lock_timestamp once.
Proof.
  intros Hf once twice.
  assert (Hf3 : fulfils 3 (oracle w) = true) by now do 3 apply fulfils_weaken.
  assert (Honce : fulfils 3 (oracle once) = true).
  { unfold once, worldAfter. rewrite releaseSyncLock_fulfilled by exact Hf3.
    world_fields. now do 3 apply fulfils_tl. }
  destruct (releaseSyncLock_releases w Hf3) as (Hl1 & Hd1 & _).
  destruct (releaseSyncLock_releases once Honce) as (Hl2 & Hd2 & _).
  fold once in Hl1, Hd1. fold twice in Hl2, Hd2.
  split; [apply releaseSyncLock_returns|]. split.
  - rewrite Hd2, Hd1. reflexivity.
  - now rewrite Hl2, Hl1.
Qed.

Lemma releaseSyncLock_idempotent_witness :
  fulfils 6 (oracle contendedWorld) = true
  /\ crm_extracted_data
       (worldAfter releaseSyncLock (worldAfter releaseSyncLock contendedWorld))
     = crm_extracted_data (worldAfter releaseSyncLock contendedWorld).
Proof.
  split; [reflexivity|].
  exact (proj1 (proj2 (@releaseSyncLock_idempotent contendedWorld eq_refl))).
Defined.

(** Under every answer of the store, acquiring and releasing the lock change
    nothing of the stored document but the [syncInProgress] flag: the three
    collections and [lastSync] stay as they were. *)
Theorem lock_cycle_keeps_the_data w :
  sameData (documentOrDefault (crm_extracted_data (worldAfter acquireSyncLock w)))
    (documentOrDefault (crm_extracted_data w))
  /\ sameData (documentOrDefault (crm_extracted_data (worldAfter releaseSyncLock w)))
       (documentOrDefault (crm_extracted_data w))
  /\ sameData
       (documentOrDefault
          (crm_extracted_data
             (worldAfter releaseSyncLock (worldAfter acquireSyncLock w))))
       (documentOrDefault (crm_extracted_data w)).
Proof.
  set (D0 := documentOrDefault (crm_extracted_data w)).
  assert (Hflag : forall b d, sameData d D0 -> sameData (setSyncInProgress b d) D0)
    by (intros b d H; exact H).
  assert (Hw : storeSatisfies (fun d => sameData d D0) w)
    by (repeat split).
  pose proof (@acquireSyncLock_keeps _ Hflag w Hw) as [Hacquire _].
  pose proof (@releaseSyncLock_keeps _ Hflag w Hw) as [Hrelease _].
  pose proof (@releaseSyncLock_keeps _ Hflag _ Hacquire) as [Hboth _].
  split; [exact Hacquire | split; [exact Hrelease | exact Hboth]].
Qed.

Lemma fulfils_answers_3 w :
  fulfils 3 (oracle w) = true <->
  rejection (answer 0 w) = None /\ rejection (answer 1 w) = None
  /\ rejection (answer 2 w) = None.
Proof.
  unfold answer. destruct (oracle w) as [|r0 [|r1 [|r2 rest]]]; simpl;
    repeat match goal with
           | |- context [rejection ?r] => destruct (rejection r)
           end; intuition congruence.
Qed.

(** The lock and the world left by an acquisition that took the lock. *)
Lemma acquireSyncLock_free_fields w :
  fulfils 4 (oracle w) = true ->
  lockIsHeld (sync_lock_timestamp w) (lockCheckTime w) = false ->
  outcomeOf acquireSyncLock w = Returned true
  /\ sync_lock_timestamp (worldAfter acquireSyncLock w) = Some (lockCheckTime w)
  /\ oracle (worldAfter acquireSyncLock w) = tl (tl (tl (tl (oracle w))))
  /\ crm_extracted_data (worldAfter acquireSyncLock w)
     = Some (setSyncInProgress true (documentOrDefault (crm_extracted_data w)))
  /\ (lockCheckTime w <= clock (worldAfter acquireSyncLock w))%Z.
Proof.
  intros Hf Hfree. unfold outcomeOf, worldAfter.
  rewrite (acquireSyncLock_free w Hf Hfree). world_fields.
  repeat split. unfold lockCheckTime. rewrite (elapsed_S 1).
  pose proof (elapsed_nonneg 1 (tl (tl (oracle w)))).
  pose proof (elapsed_nonneg 1 (tl (tl (tl (oracle w))))).
  lia.
Qed.

Lemma delayed_fields ms w :
  sync_lock_timestamp (worldAfter (delayExecution ms) w) = sync_lock_timestamp w
  /\ crm_extracted_data (worldAfter (delayExecution ms) w) = crm_extracted_data w
  /\ oracle (worldAfter (delayExecution ms) w) = oracle w
  /\ clock (worldAfter (delayExecution ms) w) = (clock w + ms)%Z.
Proof. repeat split. Qed.



(** Staleness recovery: when the store fulfils the four calls of each of
    the two acquisitions, a lock taken and never released is taken over by
    an acquisition whose check comes 30 000 ms or more after the first
    one's. *)
Theorem stale_lock_is_taken_over w ms :
  fulfils 8 (oracle w) = true ->
  lockIsHeld (sync_lock_timestamp w) (lockCheckTime w) = false ->
  let w1 := worldAfter acquireSyncLock w in
  let w2 := worldAfter (delayExecution ms) w1 in
  (lockTimeout <= lockCheckTime w2 - lockCheckTime w)%Z ->
  outcomeOf acquireSyncLock w = Returned true
  /\ outcomeOf acquireSyncLock w2 = Returned true
  /\ sync_lock_timestamp (worldAfter acquireSyncLock w2) = Some (lockCheckTime w2).
Proof.
  intros Hf Hfree w1 w2 Hstale.
  assert (Hf4 : fulfils 4 (oracle w) = true) by now do 4 apply fulfils_weaken.
  destruct (acquireSyncLock_free_fields w Hf4 Hfree) as (Hout & Hlock & Horacle & _).
  fold w1 in Hlock, Horacle.
  destruct (delayed_fields ms w1) as (Hlock2 & _ & Horacle2 & _).
  fold w2 in Hlock2, Horacle2.
  assert (Hf2 : fulfils 4 (oracle w2) = true).
  { rewrite Horacle2, Horacle. now do 4 apply fulfils_tl. }
  assert (Hfree2 : lockIsHeld (sync_lock_timestamp w2) (lockCheckTime w2) = false).
  { destruct (lockIsHeld (sync_lock_timestamp w2) (lockCheckTime w2)) eqn:E;
      [|reflexivity].
    apply lockIsHeld_spec in E. destruct E as (timestamp & Hts & _ & Hage).
    rewrite Hlock2, Hlock in Hts. injection Hts as <-. lia. }
  destruct (acquireSyncLock_free_fields w2 Hf2 Hfree2) as (Hout2 & Hlock3 & _).
  auto.
Qed.

Lemma stale_lock_is_taken_over_witness :
  let w := exampleWorld (Some exampleDocument) None 50000 [] in
  let w2 := worldAfter (delayExecution 30000) (worldAfter acquireSyncLock w) in
  fulfils 8 (oracle w) = true
  /\ lockIsHeld (sync_lock_timestamp w) (lockCheckTime w) = false
  /\ (lockTimeout <= lockCheckTime w2 - lockCheckTime w)%Z
  /\ outcomeOf acquireSyncLock w2 = Returned true.
Proof.
  cbv zeta. split; [reflexivity|]. split; [reflexivity|].
  split; [discriminate|].
  refine (proj1 (proj2 (@stale_lock_is_taken_over
                          (exampleWorld (Some exampleDocument) None 50000 []) 30000
                          eq_refl eq_refl _))).
  discriminate.
Defined.

Lemma answer_logEffect k e w : answer k (logEffect e w) = answer k w.
Proof. reflexivity. Qed.

Lemma answer_writeLock k l w : answer k (writeLock l w) = answer k w.
Proof. reflexivity. Qed.

Lemma answer_writeData k d w : answer k (writeData d w) = answer k w.
Proof. reflexivity. Qed.

#[global] Hint Rewrite answer_replied answer_logEffect answer_writeLock
  answer_writeData : world.

(** [acquireSyncLock] fails closed: when the store rejects the read of the
    document, the read of the lock key or the write of the lock key, the
    call returns false; and whenever it returns false it has changed neither
    key and no write of the document was attempted. *)
Theorem acquireSyncLock_fails_closed w :
  (fulfils 3 (oracle w) = false -> outcomeOf acquireSyncLock w = Returned false)
  /\ (outcomeOf acquireSyncLock w = Returned false ->
      crm_extracted_data (worldAfter acquireSyncLock w) = crm_extracted_data w
      /\ sync_lock_timestamp (worldAfter acquireSyncLock w) = sync_lock_timestamp w
      /\ exists es,
           effects (worldAfter acquireSyncLock w) = effects w ++ es
           /\ existsb isDocumentWrite es = false).
Proof.
  split.
  - intros Hf. unfold outcomeOf, acquireSyncLock, tryCatch, bind.
    destruct (rejection (answer 0 w)) as [error0|] eqn:H0.
    { now rewrite (retrieveAllData_rejected w H0). }
    rewrite retrieveAllData_fulfilled
      by (apply fulfils_1_iff; now rewrite answer_0).
    cbn [success payload]. unfold storageGetLock.
    destruct (rejection (answer 1 w)) as [error1|] eqn:H1.
    { rewrite (@storageCall_rejected _ _ _ _ error1)
        by (rewrite answer_0; now autorewrite with world).
      reflexivity. }
    rewrite storageCall_fulfilled
      by (apply fulfils_1_iff; rewrite answer_0; now autorewrite with world).
    unfold dateNow. cbn [fst snd].
    destruct (lockIsHeld _ _); [reflexivity|].
    destruct (rejection (answer 2 w)) as [error2|] eqn:H2.
    { unfold storageSetLock.
      rewrite (@storageCall_rejected _ _ _ _ error2)
        by (rewrite answer_0; now autorewrite with world).
      reflexivity. }
    exfalso. assert (fulfils 3 (oracle w) = true) by now apply fulfils_answers_3.
    congruence.
  - intros Hfalse. destruct (acquireSyncLock_false w Hfalse) as (Hd & Hl & es & He & Hp).
    split; [exact Hd|]. split; [exact Hl|]. exists es. split; [exact He|].
    now apply lockProbes_harmless.
Qed.

Lemma acquireSyncLock_fails_closed_witness :
  let w := exampleWorld (Some exampleDocument) None 50000 [rejectingReply] in
  fulfils 3 (oracle w) = false
  /\ outcomeOf acquireSyncLock w = Returned false
  /\ crm_extracted_data (worldAfter acquireSyncLock w) = Some exampleDocument.
Proof.
  cbv zeta. split; [reflexivity|].
  pose proof (@acquireSyncLock_fails_closed
                (exampleWorld (Some exampleDocument) None 50000 [rejectingReply]))
    as [Hfalse Hkeys].
  split; [exact (Hfalse eq_refl)|].
  exact (proj1 (Hkeys (Hfalse eq_refl))).
Defined.

(** ** Insertions, step by step *)

Lemma clockAfter_0 w : clock w = clockAfter 0 w.
Proof. unfold clockAfter. simpl. lia. Qed.

Lemma clockAfter_replied k w : clockAfter k (replied w) = clockAfter (S k) w.
Proof.
  unfold clockAfter. rewrite clock_replied, oracle_replied, (elapsed_S k). lia.
Qed.

Lemma clockAfter_logEffect k e w : clockAfter k (logEffect e w) = clockAfter k w.
Proof. reflexivity. Qed.

Lemma clockAfter_writeLock k l w : clockAfter k (writeLock l w) = clockAfter k w.
Proof. reflexivity. Qed.

Lemma clockAfter_writeData k d w : clockAfter k (writeData d w) = clockAfter k w.
Proof. reflexivity. Qed.

Create Rewrite HintDb clocks.
#[global] Hint Rewrite clockAfter_replied clockAfter_logEffect clockAfter_writeLock
  clockAfter_writeData : clocks.

Lemma getCollection_setCollection_other other entityType l d :
  other <> entityType ->
  getCollection other (setCollection entityType l d) = getCollection other d.
Proof. destruct other, entityType; intros Hne; try reflexivity; congruence. Qed.

Lemma tl_skipn {A} k (l : list A) : tl (skipn k l) = skipn (S k) l.
Proof.
  revert l. induction k as [|k IH]; intros [|a l]; try reflexivity.
  apply IH.
Qed.

(** The start of an attempt: the turn of the loop up to the acquisition. *)
Ltac enter_attempt :=
  cbn [insertLoop]; unfold bind at 1; unfold insertAttempt at 1, tryCatch;
  unfold bind at 1.

(** ** The fields of a world, by rewriting *)

Lemma oracle_logEffect e w : oracle (logEffect e w) = oracle w.
Proof. reflexivity. Qed.

Lemma oracle_writeData d w : oracle (writeData d w) = oracle w.
Proof. reflexivity. Qed.

Lemma oracle_writeLock l w : oracle (writeLock l w) = oracle w.
Proof. reflexivity. Qed.

Lemma crm_logEffect e w : crm_extracted_data (logEffect e w) = crm_extracted_data w.
Proof. reflexivity. Qed.

Lemma crm_writeData d w : crm_extracted_data (writeData d w) = d.
Proof. reflexivity. Qed.

Lemma crm_writeLock l w : crm_extracted_data (writeLock l w) = crm_extracted_data w.
Proof. reflexivity. Qed.

Lemma lock_logEffect e w : sync_lock_timestamp (logEffect e w) = sync_lock_timestamp w.
Proof. reflexivity. Qed.

Lemma lock_writeData d w : sync_lock_timestamp (writeData d w) = sync_lock_timestamp w.
Proof. reflexivity. Qed.

Lemma lock_writeLock l w : sync_lock_timestamp (writeLock l w) = l.
Proof. reflexivity. Qed.

Lemma clock_logEffect e w : clock (logEffect e w) = clock w.
Proof. reflexivity. Qed.

Lemma clock_writeData d w : clock (writeData d w) = clock w.
Proof. reflexivity. Qed.

Lemma clock_writeLock l w : clock (writeLock l w) = clock w.
Proof. reflexivity. Qed.

Lemma effects_logEffect e w : effects (logEffect e w) = effects w ++ [e].
Proof. reflexivity. Qed.

Lemma effects_writeData d w : effects (writeData d w) = effects w.
Proof. reflexivity. Qed.

Lemma effects_writeLock l w : effects (writeLock l w) = effects w.
Proof. reflexivity. Qed.

Create Rewrite HintDb fieldsOf.
#[global] Hint Rewrite crm_replied lock_replied effects_replied oracle_replied
  clock_replied oracle_logEffect oracle_writeData oracle_writeLock
  crm_logEffect crm_writeData crm_writeLock lock_logEffect lock_writeData
  lock_writeLock clock_logEffect clock_writeData clock_writeLock
  effects_logEffect effects_writeData effects_writeLock
  answer_replied answer_logEffect answer_writeLock answer_writeData : fieldsOf.

(** Reads a field of a world by rewriting only, so that the proof term
    stays small. *)
Ltac field_rw := autorewrite with fieldsOf.

(** The run of an insertion whose nine storage calls are fulfilled and which
    meets no fresh lock. *)
Lemma insertRecordsWithDeduplication_fulfilled entityType
  (newRecords : list (RecordOf entityType)) w :
  fulfils 9 (oracle w) = true ->
  lockIsHeld (sync_lock_timestamp w) (lockCheckTime w) = false ->
  exists w',
    insertRecordsWithDeduplication entityType newRecords w
    = (Returned {| success := true;
                   payload :=
                     Some (insertedCountFor
                             (getCollection entityType
                                (documentOrDefault (crm_extracted_data w)))
                             newRecords);
                   errorMessage := None |}, w')
    /\ crm_extracted_data w'
       = Some (setSyncInProgress false
                 (setLastSync (clockAfter 5 w)
                    (setCollection entityType
                       (performDeduplication
                          (getCollection entityType
                             (documentOrDefault (crm_extracted_data w)))
                          newRecords)
                       (setSyncInProgress true
                          (documentOrDefault (crm_extracted_data w))))))
    /\ sync_lock_timestamp w' = None
    /\ oracle w' = tl (tl (tl (tl (tl (tl (tl (tl (tl (oracle w))))))))).
Proof.
  intros Hf Hfree.
  assert (Hf4 : fulfils 4 (oracle w) = true) by now do 5 apply fulfils_weaken.
  eexists. split; [|split; [|split]].
  - unfold insertRecordsWithDeduplication.
    change (RETRY_ATTEMPTS - 0)%nat with 3%nat. enter_attempt.
    rewrite acquireSyncLock_free by assumption. cbn [negb].
    unfold bind at 1.
    rewrite retrieveAllData_fulfilled
      by (field_rw; eapply fulfils_1; do 4 apply fulfils_tl; exact Hf).
    cbn [success payload]. unfold bind at 1, dateNow at 1. unfold bind at 1.
    rewrite persistData_fulfilled
      by (field_rw; eapply fulfils_1; do 5 apply fulfils_tl; exact Hf).
    unfold bind at 1.
    rewrite releaseSyncLock_fulfilled
      by (field_rw; do 6 apply fulfils_tl; exact Hf).
    cbn [success negb ret]. unfold insertedCountFor.
    field_rw. cbn [documentOrDefault].
    rewrite getCollection_setSyncInProgress. reflexivity.
  - field_rw. cbn [documentOrDefault].
    match goal with
    | |- Some (setSyncInProgress _ (setLastSync ?t _)) = _ =>
        replace t with (clockAfter 5 w); [reflexivity|]
    end.
    unfold clockAfter.
    rewrite (elapsed_S 4), (elapsed_S 3), (elapsed_S 2), (elapsed_S 1). lia.
  - field_rw. reflexivity.
  - field_rw. reflexivity.
Qed.

(** A fulfilled insertion that meets no fresh lock stores the merged
    collection under its entity type, leaves the other two collections as
    they were, sets [lastSync] to the time of the write, and ends with the
    flag cleared and the lock key removed. *)
Theorem insert_stores_the_merge entityType (newRecords : list (RecordOf entityType)) w :
  fulfils 9 (oracle w) = true ->
  lockIsHeld (sync_lock_timestamp w) (lockCheckTime w) = false ->
  let before := documentOrDefault (crm_extracted_data w) in
  let w' := worldAfter (insertRecordsWithDeduplication entityType newRecords) w in
  exists after,
    crm_extracted_data w' = Some after
    /\ getCollection entityType after
       = performDeduplication (getCollection entityType before) newRecords
    /\ (forall other, other <> entityType ->
          getCollection other after = getCollection other before)
    /\ lastSync after = clockAfter 5 w
    /\ syncInProgress after = false
    /\ sync_lock_timestamp w' = None.
Proof.
  intros Hf Hfree before w'.
  destruct (insertRecordsWithDeduplication_fulfilled entityType newRecords w Hf Hfree)
    as (w1 & Hrun & Hd & Hl & _).
  unfold w', worldAfter. rewrite Hrun. cbn [snd]. rewrite Hd.
  eexists. split; [reflexivity|]. split; [|split; [|split; [|split]]].
  - rewrite getCollection_setSyncInProgress, getCollection_setLastSync.
    apply getCollection_setCollection.
  - intros other Hne.
    rewrite getCollection_setSyncInProgress, getCollection_setLastSync.
    rewrite getCollection_setCollection_other by exact Hne.
    apply getCollection_setSyncInProgress.
  - reflexivity.
  - reflexivity.
  - exact Hl.
Qed.

Lemma insert_stores_the_merge_witness :
  let w := exampleWorld (Some exampleDocument) (Some 1000%Z) 50000 [] in
  let batch := [exampleContact "a" 150 "Y"; exampleContact "b" 10 "Z"] in
  fulfils 9 (oracle w) = true
  /\ lockIsHeld (sync_lock_timestamp w) (lockCheckTime w) = false
  /\ exists after,
       crm_extracted_data
         (worldAfter (insertRecordsWithDeduplication Contacts batch) w)
       = Some after
       /\ contacts after = [exampleContact "a" 150 "Y"; exampleContact "b" 10 "Z"].
Proof.
  cbv zeta. split; [reflexivity|]. split; [reflexivity|].
  destruct (@insert_stores_the_merge Contacts
              [exampleContact "a" 150 "Y"; exampleContact "b" 10 "Z"]
              (exampleWorld (Some exampleDocument) (Some 1000%Z) 50000 [])
              eq_refl eq_refl) as (after & Hd & Hmerged & _).
  exists after. split; [exact Hd | exact Hmerged].
Defined.

Lemma fulfils_answers_3_from w :
  rejection (answer 0 w) = None -> rejection (answer 1 w) = None ->
  rejection (answer 2 w) = None -> fulfils 3 (oracle w) = true.
Proof. intros. now apply fulfils_answers_3. Qed.

(** When the write of the merged document is rejected, the insertion is not
    retried: it returns a failure carrying the message of the rejection,
    and the lock is released, so that the store ends with the document as it
    was (flag cleared) and without the lock key. *)
Theorem insert_reports_a_rejected_write entityType
  (newRecords : list (RecordOf entityType)) w error :
  fulfils 5 (oracle w) = true ->
  lockIsHeld (sync_lock_timestamp w) (lockCheckTime w) = false ->
  rejection (answer 5 w) = Some error ->
  rejection (answer 6 w) = None -> rejection (answer 7 w) = None ->
  rejection (answer 8 w) = None ->
  let w' := worldAfter (insertRecordsWithDeduplication entityType newRecords) w in
  outcomeOf (insertRecordsWithDeduplication entityType newRecords) w
  = Returned {| success := false; payload := None;
                errorMessage := Some (messageOr "Failed to persist data" error) |}
  /\ crm_extracted_data w'
     = Some (setSyncInProgress false (documentOrDefault (crm_extracted_data w)))
  /\ sync_lock_timestamp w' = None.
Proof.
  intros Hf Hfree H5 H6 H7 H8 w'.
  assert (Hf4 : fulfils 4 (oracle w) = true) by now apply fulfils_weaken.
  assert (Hrun : exists w1,
             insertRecordsWithDeduplication entityType newRecords w
             = (Returned {| success := false; payload := None;
                            errorMessage :=
                              Some (messageOr "Failed to persist data" error) |}, w1)
             /\ crm_extracted_data w1
                = Some (setSyncInProgress false
                          (documentOrDefault (crm_extracted_data w)))
             /\ sync_lock_timestamp w1 = None).
  { eexists. split; [|split].
    - unfold insertRecordsWithDeduplication.
      change (RETRY_ATTEMPTS - 0)%nat with 3%nat. enter_attempt.
      rewrite acquireSyncLock_free by assumption. cbn [negb].
      unfold bind at 1.
      rewrite retrieveAllData_fulfilled
        by (field_rw; eapply fulfils_1; do 4 apply fulfils_tl; exact Hf).
      cbn [success payload]. unfold bind at 1, dateNow at 1. unfold bind at 1.
      rewrite (@persistData_rejected _ _ error) by (field_rw; exact H5).
      unfold bind at 1.
      rewrite releaseSyncLock_fulfilled
        by (apply fulfils_answers_3_from; field_rw; assumption).
      cbn [success negb ret errorMessage]. reflexivity.
    - field_rw. reflexivity.
    - field_rw. reflexivity. }
  destruct Hrun as (w1 & Hrun & Hd & Hl).
  unfold w', outcomeOf, worldAfter. rewrite Hrun. auto.
Qed.

Lemma insert_reports_a_rejected_write_witness :
  let w := exampleWorld (Some exampleDocument) None 50000
             [promptReply; promptReply; promptReply; promptReply; promptReply;
              rejectingReply] in
  let batch := [exampleContact "b" 10 "Z"] in
  fulfils 5 (oracle w) = true
  /\ rejection (answer 5 w) = Some (ErrorObject "QUOTA_BYTES quota exceeded")
  /\ outcomeOf (insertRecordsWithDeduplication Contacts batch) w
     = Returned {| success := false; payload := None;
                   errorMessage := Some "QUOTA_BYTES quota exceeded" |}
  /\ sync_lock_timestamp
       (worldAfter (insertRecordsWithDeduplication Contacts batch) w) = None.
Proof.
  cbv zeta. split; [reflexivity|]. split; [reflexivity|].
  pose proof (@insert_reports_a_rejected_write Contacts
                [exampleContact "b" 10 "Z"]
                (exampleWorld (Some exampleDocument) None 50000
                   [promptReply; promptReply; promptReply; promptReply; promptReply;
                    rejectingReply])
                (ErrorObject "QUOTA_BYTES quota exceeded")
                eq_refl eq_refl eq_refl eq_refl eq_refl eq_refl)
    as (Hout & _ & Hlock).
  split; [exact Hout | exact Hlock].
Defined.

(** When the document cannot be read once the lock is taken, the insertion
    is not retried either: it returns the failure "Failed to retrieve
    current data for deduplication" (the message of the rejection is not
    passed on), and releases the lock. *)
Theorem insert_reports_a_rejected_read entityType
  (newRecords : list (RecordOf entityType)) w error :
  fulfils 4 (oracle w) = true ->
  lockIsHeld (sync_lock_timestamp w) (lockCheckTime w) = false ->
  rejection (answer 4 w) = Some error ->
  rejection (answer 5 w) = None -> rejection (answer 6 w) = None ->
  rejection (answer 7 w) = None ->
  let w' := worldAfter (insertRecordsWithDeduplication entityType newRecords) w in
  outcomeOf (insertRecordsWithDeduplication entityType newRecords) w
  = Returned {| success := false; payload := None;
                errorMessage :=
                  Some "Failed to retrieve current data for deduplication" |}
  /\ crm_extracted_data w'
     = Some (setSyncInProgress false (documentOrDefault (crm_extracted_data w)))
  /\ sync_lock_timestamp w' = None.
Proof.
  intros Hf Hfree H4 H5 H6 H7 w'.
  assert (Hrun : exists w1,
             insertRecordsWithDeduplication entityType newRecords w
             = (Returned {| success := false; payload := None;
                            errorMessage :=
                              Some "Failed to retrieve current data for deduplication" |},
                w1)
             /\ crm_extracted_data w1
                = Some (setSyncInProgress false
                          (documentOrDefault (crm_extracted_data w)))
             /\ sync_lock_timestamp w1 = None).
  { eexists. split; [|split].
    - unfold insertRecordsWithDeduplication.
      change (RETRY_ATTEMPTS - 0)%nat with 3%nat. enter_attempt.
      rewrite acquireSyncLock_free by assumption. cbn [negb].
      unfold bind at 1.
      rewrite (@retrieveAllData_rejected _ error) by (field_rw; exact H4).
      cbn [success payload]. unfold bind at 1.
      rewrite releaseSyncLock_fulfilled
        by (apply fulfils_answers_3_from; field_rw; assumption).
      cbn [ret]. reflexivity.
    - field_rw. reflexivity.
    - field_rw. reflexivity. }
  destruct Hrun as (w1 & Hrun & Hd & Hl).
  unfold w', outcomeOf, worldAfter. rewrite Hrun. auto.
Qed.

Lemma insert_reports_a_rejected_read_witness :
  let w := exampleWorld (Some exampleDocument) None 50000
             [promptReply; promptReply; promptReply; promptReply; rejectingReply] in
  let batch := [exampleContact "b" 10 "Z"] in
  fulfils 4 (oracle w) = true
  /\ rejection (answer 4 w) = Some (ErrorObject "QUOTA_BYTES quota exceeded")
  /\ outcomeOf (insertRecordsWithDeduplication Contacts batch) w
     = Returned {| success := false; payload := None;
                   errorMessage :=
                     Some "Failed to retrieve current data for deduplication" |}
  /\ sync_lock_timestamp
       (worldAfter (insertRecordsWithDeduplication Contacts batch) w) = None.
Proof.
  cbv zeta. split; [reflexivity|]. split; [reflexivity|].
  pose proof (@insert_reports_a_rejected_read Contacts
                [exampleContact "b" 10 "Z"]
                (exampleWorld (Some exampleDocument) None 50000
                   [promptReply; promptReply; promptReply; promptReply;
                    rejectingReply])
                (ErrorObject "QUOTA_BYTES quota exceeded")
                eq_refl eq_refl eq_refl eq_refl eq_refl eq_refl)
    as (Hout & _ & Hlock).
  split; [exact Hout | exact Hlock].
Defined.

(** ** Deleting and clearing *)

Lemma withoutId_length {T} `{EntityRecord T} recordId (l : list T) :
  (length (withoutId recordId l) <= length l)%nat.
Proof. unfold withoutId. apply filter_length_le. Qed.

Lemma withoutId_present {T} `{EntityRecord T} recordId (l : list T) :
  In recordId (ids l) -> (length (withoutId recordId l) < length l)%nat.
Proof.
  unfold ids. induction l as [|r l IH]; simpl; intros Hin; [tauto|].
  destruct (String.eqb (id r) recordId) eqn:Er; simpl.
  - pose proof (withoutId_length recordId l). lia.
  - destruct Hin as [Hin|Hin].
    + apply String.eqb_neq in Er. tauto.
    + apply IH in Hin. lia.
Qed.

Lemma withoutId_ids {T} `{EntityRecord T} recordId (l : list T) :
  ~ In recordId (ids (withoutId recordId l)).
Proof.
  unfold ids, withoutId. intros Hin. apply in_map_iff in Hin.
  destruct Hin as (r & Hr & Hin). apply filter_In in Hin.
  destruct Hin as [_ Hne]. apply negb_true_iff, String.eqb_neq in Hne. tauto.
Qed.

Lemma withoutId_others {T} `{EntityRecord T} recordId (l : list T) r :
  In r (withoutId recordId l) <-> In r l /\ id r <> recordId.
Proof.
  unfold withoutId. rewrite filter_In, negb_true_iff, String.eqb_neq. tauto.
Qed.

(** Deleting a stored record: when the read and the write are fulfilled and
    the collection holds the id, [removeRecord] returns success and stores
    the document with every record of that id filtered out of the
    collection, the other records kept.  The two other collections,
    [lastSync] and the flag are as they were; the store is called twice,
    for the document only: the lock key is neither read nor written, so a
    deletion goes through while a synchronisation holds the lock. *)
Theorem removeRecord_deletes entityType recordId w :
  fulfils 2 (oracle w) = true ->
  In recordId (ids (getCollection entityType (documentOrDefault (crm_extracted_data w)))) ->
  let before := documentOrDefault (crm_extracted_data w) in
  let w' := worldAfter (removeRecord entityType recordId) w in
  outcomeOf (removeRecord entityType recordId) w
  = Returned {| success := true; payload := Some tt; errorMessage := None |}
  /\ (exists after,
        crm_extracted_data w' = Some after
        /\ getCollection entityType after
           = withoutId recordId (getCollection entityType before)
        /\ ~ In recordId (ids (getCollection entityType after))
        /\ (forall r, In r (getCollection entityType after) <->
                      In r (getCollection entityType before) /\ id r <> recordId)
        /\ (length (getCollection entityType after)
            < length (getCollection entityType before))%nat
        /\ (forall other, other <> entityType ->
              getCollection other after = getCollection other before)
        /\ lastSync after = lastSync before
        /\ syncInProgress after = syncInProgress before)
  /\ sync_lock_timestamp w' = sync_lock_timestamp w
  /\ effects w' = effects w ++ [StorageGet CRM_DATA true; StorageSet CRM_DATA true].
Proof.
  intros Hf Hin before w'.
  pose proof (withoutId_present _ _ Hin) as Hlt.
  assert (Hrun : removeRecord entityType recordId w
                 = (Returned {| success := true; payload := Some tt;
                                errorMessage := None |},
                    logEffect (StorageSet CRM_DATA true)
                      (writeData
                         (Some (setCollection entityType
                                  (withoutId recordId
                                     (getCollection entityType before)) before))
                         (replied (logEffect (StorageGet CRM_DATA true)
                                     (replied w)))))).
  { unfold removeRecord, tryCatch. unfold bind at 1.
    rewrite retrieveAllData_fulfilled by (eapply fulfils_1; exact Hf).
    cbn [success payload]. field_rw. fold before.
    destruct (Nat.eqb_spec
                (length (withoutId recordId (getCollection entityType before)))
                (length (getCollection entityType before))) as [E|_].
    - fold before in Hlt. lia.
    - rewrite persistData_fulfilled
        by (field_rw; eapply fulfils_1, fulfils_tl; exact Hf).
      reflexivity. }
  unfold w', outcomeOf, worldAfter. rewrite Hrun. cbn [fst snd].
  split; [reflexivity|]. split; [|split].
  - eexists. split; [field_rw; reflexivity|].
    rewrite getCollection_setCollection.
    split; [reflexivity|]. split; [apply withoutId_ids|].
    split; [intros r; apply withoutId_others|].
    split; [exact Hlt|]. split; [|split].
    + intros other Hne. now apply getCollection_setCollection_other.
    + now destruct entityType.
    + now destruct entityType.
  - field_rw. reflexivity.
  - field_rw. now rewrite <- app_assoc.
Qed.

Lemma removeRecord_deletes_witness :
  let w := exampleWorld (Some exampleDocument) (Some 49000%Z) 50000 [] in
  fulfils 2 (oracle w) = true
  /\ In "a" (ids (getCollection Contacts (documentOrDefault (crm_extracted_data w))))
  /\ outcomeOf (removeRecord Contacts "a") w
     = Returned {| success := true; payload := Some tt; errorMessage := None |}
  /\ sync_lock_timestamp (worldAfter (removeRecord Contacts "a") w) = Some 49000%Z.
Proof.
  cbv zeta. split; [reflexivity|]. split; [left; reflexivity|].
  pose proof (@removeRecord_deletes Contacts "a"
                (exampleWorld (Some exampleDocument) (Some 49000%Z) 50000 [])
                eq_refl (or_introl eq_refl))
    as (Hout & _ & Hlock & _).
  split; [exact Hout | exact Hlock].
Defined.

(** ** Retrying *)

Lemma oracle_afterDelay w : oracle (afterDelay w) = oracle w.
Proof. reflexivity. Qed.
Lemma crm_afterDelay w : crm_extracted_data (afterDelay w) = crm_extracted_data w.
Proof. reflexivity. Qed.
Lemma lock_afterDelay w : sync_lock_timestamp (afterDelay w) = sync_lock_timestamp w.
Proof. reflexivity. Qed.
Lemma clock_afterDelay w : clock (afterDelay w) = (clock w + 1000)%Z.
Proof. reflexivity. Qed.

(** A fresh lock that expires during the back-off.  When the first eight
    storage calls are fulfilled and a lock is stored (not zero) whose age at
    the first check is less than the timeout by at most [RETRY_DELAY_MS],
    an acquisition alone returns false, and yet the insertion returns
    success with the count and leaves the merge in the store: the delay
    after the first attempt makes the lock stale for the second. *)
Theorem insert_retries_until_the_lock_expires entityType
  (newRecords : list (RecordOf entityType)) w timestamp :
  fulfils 8 (oracle w) = true ->
  sync_lock_timestamp w = Some timestamp -> timestamp <> 0%Z ->
  (29000 <= lockCheckTime w - timestamp < 30000)%Z ->
  let existingRecords :=
    getCollection entityType (documentOrDefault (crm_extracted_data w)) in
  let w' := worldAfter (insertRecordsWithDeduplication entityType newRecords) w in
  outcomeOf acquireSyncLock w = Returned false
  /\ outcomeOf (insertRecordsWithDeduplication entityType newRecords) w
     = Returned {| success := true;
                   payload := Some (insertedCountFor existingRecords newRecords);
                   errorMessage := None |}
  /\ getCollection entityType (documentOrDefault (crm_extracted_data w'))
     = performDeduplication existingRecords newRecords.
Proof.
  intros Hf Hl Hnz Hage E w'.
  assert (Hf2 : fulfils 2 (oracle w) = true) by now do 6 apply fulfils_weaken.
  assert (Hheld : lockIsHeld (sync_lock_timestamp w) (lockCheckTime w) = true).
  { apply lockIsHeld_spec. exists timestamp. unfold lockTimeout. repeat split; auto; lia. }
  pose proof (acquireSyncLock_held w Hf2 Hheld) as Hrun1.
  set (w1 := logEffect (StorageGet SYNC_LOCK true)
               (replied (logEffect (StorageGet CRM_DATA true) (replied w)))) in *.
  assert (Ho : oracle (afterDelay w1) = tl (tl (oracle w))).
  { rewrite oracle_afterDelay. unfold w1. now field_rw. }
  assert (Hd : crm_extracted_data (afterDelay w1) = crm_extracted_data w).
  { rewrite crm_afterDelay. unfold w1. now field_rw. }
  assert (Hf4 : fulfils 4 (oracle (afterDelay w1)) = true).
  { rewrite Ho. do 2 apply fulfils_weaken. do 2 apply fulfils_tl. exact Hf. }
  assert (Hfree : lockIsHeld (sync_lock_timestamp (afterDelay w1))
                    (lockCheckTime (afterDelay w1)) = false).
  { rewrite lock_afterDelay. unfold lockCheckTime at 1. rewrite clock_afterDelay.
    unfold w1 at 1 2. rewrite clock_logEffect, lock_logEffect, lockCheckTime_clock.
    rewrite lock_replied, lock_logEffect, lock_replied, Hl.
    pose proof (elapsed_nonneg 2 (oracle (afterDelay w1))).
    unfold lockIsHeld, lockTimeout.
    apply andb_false_iff. right. apply Z.ltb_ge. lia. }
  split; [unfold outcomeOf; now rewrite Hrun1|].
  assert (Hrun : exists w2,
             insertRecordsWithDeduplication entityType newRecords w
             = (Returned {| success := true;
                            payload := Some (insertedCountFor E newRecords);
                            errorMessage := None |}, w2)
             /\ getCollection entityType (documentOrDefault (crm_extracted_data w2))
                = performDeduplication E newRecords).
  { unfold insertRecordsWithDeduplication.
    change (RETRY_ATTEMPTS - 0)%nat with 3%nat. enter_attempt.
    rewrite Hrun1. cbn [negb]. unfold bind at 1. rewrite delayExecution_run.
    fold (afterDelay w1). cbn [ret].
    unfold bind at 1. unfold insertAttempt at 1, tryCatch. unfold bind at 1.
    rewrite (acquireSyncLock_free (afterDelay w1) Hf4 Hfree). cbn [negb].
    unfold bind at 1.
    rewrite retrieveAllData_fulfilled
      by (field_rw; rewrite Ho; eapply fulfils_1; do 6 apply fulfils_tl; exact Hf).
    cbn [success payload]. unfold bind at 1, dateNow at 1. unfold bind at 1.
    rewrite persistData_fulfilled
      by (field_rw; rewrite Ho; eapply fulfils_1; do 7 apply fulfils_tl; exact Hf).
    unfold bind at 1.
    match goal with
    | |- context [releaseSyncLock ?w3] =>
        assert (Hpre : storeSatisfies
                         (fun d => getCollection entityType d
                                   = performDeduplication E newRecords) w3)
    end.
    { unfold storeSatisfies, underKey. field_rw. cbn [documentOrDefault].
      rewrite Hd. fold E.
      destruct entityType; reflexivity. }
    match goal with
    | |- context [releaseSyncLock ?w3] =>
        destruct (triple_run
                    (releaseSyncLock_keeps
                       (fun d => getCollection entityType d
                                 = performDeduplication E newRecords)
                       (fun b d Hd0 =>
                          eq_trans (getCollection_setSyncInProgress entityType b d) Hd0))
                    Hpre) as (o & w4 & Hrel & Hpost & ->)
    end.
    rewrite Hrel. cbn [success negb ret]. exists w4. split.
    - field_rw. cbn [documentOrDefault]. rewrite Hd. fold E.
      rewrite getCollection_setSyncInProgress. reflexivity.
    - exact Hpost. }
  destruct Hrun as (w2 & Hrun & Hstored).
  unfold w', outcomeOf, worldAfter. rewrite Hrun. split; [reflexivity | exact Hstored].
Qed.

Lemma insert_retries_until_the_lock_expires_witness :
  let w := exampleWorld (Some exampleDocument) (Some 20500%Z) 50000 [] in
  let batch := [exampleContact "b" 10 "Z"] in
  fulfils 8 (oracle w) = true
  /\ (29000 <= lockCheckTime w - 20500 < 30000)%Z
  /\ outcomeOf (insertRecordsWithDeduplication Contacts batch) w
     = Returned {| success := true; payload := Some 1%Z; errorMessage := None |}.
Proof.
  cbv zeta. split; [reflexivity|]. split; [vm_compute; split; [discriminate | reflexivity]|].
  assert (Hnz : 20500%Z <> 0%Z) by discriminate.
  assert (Hage : (29000 <= lockCheckTime
                     (exampleWorld (Some exampleDocument) (Some 20500%Z) 50000 [])
                   - 20500 < 30000)%Z)
    by (vm_compute; split; [discriminate | reflexivity]).
  pose proof (@insert_retries_until_the_lock_expires Contacts
                [exampleContact "b" 10 "Z"]
                (exampleWorld (Some exampleDocument) (Some 20500%Z) 50000 [])
                20500%Z eq_refl eq_refl Hnz Hage)
    as (_ & Hout & _).
  exact Hout.
Defined.

(* ================================================================= *)
(** * Further properties of the merge *)
(* ================================================================= *)

Lemma existsb_eqb_In (ks : list string) (k : string) :
  existsb (String.eqb k) ks = true <-> In k ks.
Proof.
  rewrite existsb_exists. split.
  - intros (x & Hx & Ex). apply String.eqb_eq in Ex. now subst.
  - intros Hin. exists k. split; [assumption | apply String.eqb_refl].
Qed.

Lemma appendNew_app_l ks acc k :
  ~ In k ks -> appendNew (ks ++ acc) k = ks ++ appendNew acc k.
Proof.
  intros Hout. unfold appendNew.
  destruct (in_dec string_dec k (ks ++ acc)) as [Hin|Hnin],
           (in_dec string_dec k acc) as [Hin'|Hnin'].
  - reflexivity.
  - apply in_app_or in Hin. tauto.
  - exfalso. apply Hnin, in_or_app. tauto.
  - now rewrite app_assoc.
Qed.

Lemma fold_appendNew_split l ks acc :
  fold_left appendNew l (ks ++ acc) =
  ks ++ fold_left appendNew
          (filter (fun i => negb (existsb (String.eqb i) ks)) l) acc.
Proof.
  revert acc. induction l as [|k l IH]; intros acc; cbn [fold_left filter].
  - reflexivity.
  - destruct (existsb (String.eqb k) ks) eqn:Ek; cbn [negb].
    + apply existsb_eqb_In in Ek.
      rewrite appendNew_present by (apply in_or_app; tauto). apply IH.
    + assert (Hout : ~ In k ks).
      { intros Hin. apply existsb_eqb_In in Hin. congruence. }
      rewrite appendNew_app_l by exact Hout. cbn [fold_left]. apply IH.
Qed.

Section MoreMergeProperties.
Context {T : Type} `{EntityRecord T}.
Implicit Types (A B C E : list T) (i : string).

Lemma ids_merge_unique E B :
  uniqueIds E -> ids (performDeduplication E B) = ids E ++ newIds (ids E) (ids B).
Proof.
  intros Hu. rewrite ids_performDeduplication, fold_appendNew_app.
  rewrite (@fold_appendNew_fresh (ids E) []) by (auto; exact Hu).
  cbn [app]. rewrite <- (app_nil_r (ids E)) at 1.
  apply fold_appendNew_split.
Qed.

Lemma fold_last_In (l : list T) (s : option T) r :
  fold_left (fun _ x => Some x) l s = Some r -> s = Some r \/ In r l.
Proof.
  revert s. induction l as [|x l IH]; cbn [fold_left In]; intros s Hf.
  - now left.
  - apply IH in Hf. destruct Hf as [Hf|Hf]; [injection Hf as ->|]; auto.
Qed.

Lemma fold_newer_In (l : list T) (s : option T) r :
  fold_left newer l s = Some r -> s = Some r \/ In r l.
Proof.
  revert s. induction l as [|x l IH]; cbn [fold_left In]; intros s Hf.
  - now left.
  - apply IH in Hf. destruct Hf as [Hf|Hf]; [|auto].
    unfold newer in Hf. destruct s as [e|].
    + destruct (extractedAt x >? extractedAt e)%Z;
        injection Hf as <-; auto.
    + injection Hf as <-. auto.
Qed.

Lemma ids_withoutId i (l : list T) :
  ids (withoutId i l) = filter (fun k => negb (String.eqb k i)) (ids l).
Proof.
  unfold ids, withoutId. induction l as [|r l IH]; simpl; [reflexivity|].
  destruct (String.eqb (id r) i); simpl; now rewrite IH.
Qed.

Lemma filter_hasId_withoutId i j (l : list T) :
  filter (hasId j) (withoutId i l) =
  if String.eqb j i then [] else filter (hasId j) l.
Proof.
  unfold withoutId, hasId. induction l as [|r l IH]; simpl.
  - now destruct (String.eqb j i).
  - destruct (String.eqb (id r) i) eqn:Ei; simpl.
    + rewrite IH. destruct (String.eqb j i) eqn:Ej; [reflexivity|].
      destruct (String.eqb (id r) j) eqn:Er; [|reflexivity].
      apply String.eqb_eq in Ei, Er. subst. now rewrite String.eqb_refl in Ej.
    + rewrite IH. destruct (String.eqb (id r) j) eqn:Er; simpl.
      * apply String.eqb_eq in Er. subst j. now rewrite Ei.
      * reflexivity.
Qed.

Lemma recordWithId_withoutId i j (l : list T) :
  recordWithId j (withoutId i l) =
  if String.eqb j i then None else recordWithId j l.
Proof.
  unfold recordWithId, withoutId, hasId. induction l as [|r l IH]; simpl.
  - now destruct (String.eqb j i).
  - destruct (String.eqb (id r) i) eqn:Ei; simpl.
    + rewrite IH. destruct (String.eqb j i) eqn:Ej; [reflexivity|].
      destruct (String.eqb (id r) j) eqn:Er; [|reflexivity].
      apply String.eqb_eq in Ei, Er. subst. now rewrite String.eqb_refl in Ej.
    + destruct (String.eqb (id r) j) eqn:Er.
      * apply String.eqb_eq in Er. subst j. now rewrite Ei.
      * exact IH.
Qed.

Lemma filter_appendNew (p : string -> bool) ks k :
  filter p (appendNew ks k) =
  if p k then appendNew (filter p ks) k else filter p ks.
Proof.
  unfold appendNew.
  destruct (in_dec string_dec k ks) as [Hin|Hout]; destruct (p k) eqn:Ep.
  - destruct (in_dec string_dec k (filter p ks)) as [_|Hn]; [reflexivity|].
    exfalso. apply Hn, filter_In. auto.
  - reflexivity.
  - destruct (in_dec string_dec k (filter p ks)) as [Hin|_].
    + apply filter_In in Hin. tauto.
    + rewrite filter_app. simpl. now rewrite Ep.
  - rewrite filter_app. simpl. rewrite Ep. apply app_nil_r.
Qed.

Lemma filter_fold_appendNew (p : string -> bool) l ks :
  filter p (fold_left appendNew l ks) =
  fold_left appendNew (filter p l) (filter p ks).
Proof.
  revert ks. induction l as [|k l IH]; intros ks; cbn [fold_left filter].
  - reflexivity.
  - rewrite IH, filter_appendNew. now destruct (p k).
Qed.

(** Inserting a batch in two parts, one after the other, stores what
    inserting it at once stores. *)
Theorem merge_in_batches E B1 B2 :
  performDeduplication E (B1 ++ B2)
  = performDeduplication (performDeduplication E B1) B2.
Proof.
  unfold performDeduplication at 2.
  rewrite seeded_unique by apply performDeduplication_uniqueIds.
  unfold performDeduplication.
  rewrite entriesOf_values by apply keyedById_merged.
  now rewrite fold_left_app.
Qed.

(** Where the records go.  For an existing collection with unique ids the
    output keeps every existing id at its position and appends the new
    ids of the batch, each once, in the order of their first mention; the
    count an insertion reports is the number of those new ids. *)
Theorem merge_appends_new_ids E B :
  uniqueIds E ->
  ids (performDeduplication E B) = ids E ++ newIds (ids E) (ids B)
  /\ (forall k e, nth_error E k = Some e ->
        exists r, nth_error (performDeduplication E B) k = Some r /\ id r = id e)
  /\ NoDup (newIds (ids E) (ids B))
  /\ (forall i, In i (newIds (ids E) (ids B)) <-> In i (ids B) /\ ~ In i (ids E))
  /\ insertedCountFor E B = Z.of_nat (length (newIds (ids E) (ids B))).
Proof.
  intros Hu. pose proof (ids_merge_unique B Hu) as Hids.
  split; [exact Hids|]. split; [|split; [|split]].
  - intros k e Hk.
    assert (Hname : nth_error (ids (performDeduplication E B)) k = Some (id e)).
    { rewrite Hids, nth_error_app1.
      - unfold ids. now rewrite nth_error_map, Hk.
      - rewrite length_ids. apply nth_error_Some. congruence. }
    unfold ids in Hname. rewrite nth_error_map in Hname.
    destruct (nth_error (performDeduplication E B) k) as [r|]; [|discriminate].
    exists r. split; [reflexivity|]. now injection Hname.
  - apply fold_appendNew_NoDup. constructor.
  - intros i. unfold newIds. rewrite in_fold_appendNew, filter_In, negb_true_iff.
    rewrite <- not_true_iff_false, existsb_eqb_In. simpl. tauto.
  - unfold insertedCountFor.
    rewrite <- (length_ids (performDeduplication E B)), Hids, length_app, length_ids.
    lia.
Qed.

Lemma merge_provenance E B r :
  In r (performDeduplication E B) ->
  (In r E \/ In r B)
  /\ (forall n, In n B -> id n = id r -> (extractedAt n <= extractedAt r)%Z)
  /\ (uniqueIds E ->
      forall e, In e E -> id e = id r -> (extractedAt e <= extractedAt r)%Z).
Proof.
  intros Hin.
  apply in_iff_recordWithId in Hin; [|apply performDeduplication_uniqueIds].
  rewrite recordWithId_performDeduplication in Hin.
  split; [|split].
  - apply fold_newer_In in Hin. destruct Hin as [Hin|Hin].
    + apply fold_last_In in Hin. destruct Hin as [Hin|Hin]; [discriminate|].
      apply filter_In in Hin. tauto.
    + apply filter_In in Hin. tauto.
  - intros n Hn Hid.
    destruct (@fold_newer_dominates _ _ (filter (hasId (id r)) B)
                (fold_left (fun _ x => Some x) (filter (hasId (id r)) E) None) n)
      as (e & He & Hle).
    + apply filter_In. split; [assumption | now apply hasId_true].
    + congruence.
  - intros Hu e He Hid.
    rewrite last_existing_unique in Hin by assumption.
    rewrite (@recordWithId_unique _ _ (id r) E e Hu He Hid) in Hin.
    destruct (fold_newer_grows (filter (hasId (id r)) B) e) as (x & Hx & Hle).
    congruence.
Qed.

Lemma merge_untouched E B e :
  uniqueIds E -> In e E -> ~ In (id e) (ids B) ->
  In e (performDeduplication E B).
Proof.
  intros Hu He Hout.
  apply in_iff_recordWithId; [apply performDeduplication_uniqueIds|].
  rewrite recordWithId_performDeduplication, filter_hasId_absent by assumption.
  cbn [fold_left]. rewrite last_existing_unique by assumption.
  now apply recordWithId_unique.
Qed.

Lemma withoutId_performDeduplication E B i :
  withoutId i (performDeduplication E B)
  = performDeduplication (withoutId i E) (withoutId i B).
Proof.
  apply same_ids_same_records.
  - apply uniqueIds_withoutId, performDeduplication_uniqueIds.
  - rewrite ids_withoutId, !ids_performDeduplication, !ids_withoutId.
    rewrite filter_fold_appendNew, filter_app. reflexivity.
  - intros j. rewrite recordWithId_withoutId, !recordWithId_performDeduplication.
    rewrite !filter_hasId_withoutId.
    now destruct (String.eqb j i).
Qed.

Lemma withoutId_all i B : (forall n : T, In n B -> id n = i) -> withoutId i B = [].
Proof.
  intros Hall. unfold withoutId. induction B as [|n B IH]; simpl; [reflexivity|].
  rewrite (Hall n (or_introl eq_refl)), String.eqb_refl. simpl.
  apply IH. intros n' Hn'. apply Hall. now right.
Qed.

(** Every record of the output is one of the records given, and under its
    id it is at least as new as every incoming record and, when the
    existing ids are unique, as the existing record; an existing record
    whose id the batch does not mention is in the output as it was. *)
Theorem merge_outputs_come_from_inputs E B :
  (forall r, In r (performDeduplication E B) ->
     (In r E \/ In r B)
     /\ (forall n, In n B -> id n = id r -> (extractedAt n <= extractedAt r)%Z)
     /\ (uniqueIds E -> forall e, In e E -> id e = id r ->
           (extractedAt e <= extractedAt r)%Z))
  /\ (uniqueIds E -> forall e, In e E -> ~ In (id e) (ids B) ->
        In e (performDeduplication E B)).
Proof.
  split.
  - intros r. apply merge_provenance.
  - intros Hu e. now apply merge_untouched.
Qed.

(** Deleting an id from the output of a merge gives the merge of the two
    inputs with the id deleted; so deleting the id of records that were
    just inserted under a new id gives back the collection as it was. *)
Theorem removal_commutes_with_merge E B i :
  withoutId i (performDeduplication E B)
  = performDeduplication (withoutId i E) (withoutId i B)
  /\ (uniqueIds E -> ~ In i (ids E) -> (forall n, In n B -> id n = i) ->
      withoutId i (performDeduplication E B) = E).
Proof.
  split; [apply withoutId_performDeduplication|].
  intros Hu Hout Hall. rewrite withoutId_performDeduplication.
  rewrite (withoutId_absent _ _ Hout), (withoutId_all _ Hall).
  now apply performDeduplication_nil_r.
Qed.
End MoreMergeProperties.

Lemma merge_appends_new_ids_witness :
  let E := [exampleContact "a" 100 "X"; exampleContact "b" 7 "U"] in
  let B := [exampleContact "c" 1 "V"; exampleContact "a" 150 "Y";
            exampleContact "c" 2 "W"] in
  uniqueIds E
  /\ ids (performDeduplication E B) = ["a"; "b"; "c"]
  /\ insertedCountFor E B = 1%Z.
Proof.
  cbv zeta.
  assert (Hu : uniqueIds [exampleContact "a" 100 "X"; exampleContact "b" 7 "U"])
    by (repeat constructor; simpl; intuition discriminate).
  pose proof (@merge_appends_new_ids ACContact _
                [exampleContact "a" 100 "X"; exampleContact "b" 7 "U"]
                [exampleContact "c" 1 "V"; exampleContact "a" 150 "Y";
                 exampleContact "c" 2 "W"] Hu)
    as (Hids & _ & _ & _ & Hcount).
  split; [exact Hu|]. split; [rewrite Hids | rewrite Hcount]; reflexivity.
Defined.

Lemma merge_outputs_come_from_inputs_witness :
  let E := [exampleContact "a" 100 "X"; exampleContact "b" 7 "U"] in
  let B := [exampleContact "a" 150 "Y"] in
  uniqueIds E
  /\ In (exampleContact "b" 7 "U") E
  /\ ~ In "b" (ids B)
  /\ In (exampleContact "b" 7 "U") (performDeduplication E B).
Proof.
  cbv zeta.
  assert (Hu : uniqueIds [exampleContact "a" 100 "X"; exampleContact "b" 7 "U"])
    by (repeat constructor; simpl; intuition discriminate).
  assert (He : In (exampleContact "b" 7 "U")
                 [exampleContact "a" 100 "X"; exampleContact "b" 7 "U"])
    by (right; left; reflexivity).
  assert (Hout : ~ In (id (exampleContact "b" 7 "U"))
                     (ids [exampleContact "a" 150 "Y"]))
    by (simpl; intuition discriminate).
  split; [exact Hu|]. split; [exact He|]. split; [exact Hout|].
  exact (proj2 (@merge_outputs_come_from_inputs ACContact _
                  [exampleContact "a" 100 "X"; exampleContact "b" 7 "U"]
                  [exampleContact "a" 150 "Y"]) Hu _ He Hout).
Defined.

Lemma removal_commutes_with_merge_witness :
  let E := [exampleContact "a" 100 "X"; exampleContact "b" 7 "U"] in
  let B := [exampleContact "c" 1 "V"; exampleContact "c" 2 "W"] in
  uniqueIds E
  /\ ~ In "c" (ids E)
  /\ withoutId "c" (performDeduplication E B) = E.
Proof.
  cbv zeta.
  assert (Hu : uniqueIds [exampleContact "a" 100 "X"; exampleContact "b" 7 "U"])
    by (repeat constructor; simpl; intuition discriminate).
  assert (Hout : ~ In "c" (ids [exampleContact "a" 100 "X";
                                exampleContact "b" 7 "U"]))
    by (simpl; intuition discriminate).
  assert (Hall : forall n,
             In n [exampleContact "c" 1 "V"; exampleContact "c" 2 "W"] ->
             id n = "c")
    by (intros n [<-|[<-|[]]]; reflexivity).
  split; [exact Hu|]. split; [exact Hout|].
  exact (proj2 (@removal_commutes_with_merge ACContact _
                  [exampleContact "a" 100 "X"; exampleContact "b" 7 "U"]
                  [exampleContact "c" 1 "V"; exampleContact "c" 2 "W"] "c")
           Hu Hout Hall).
Defined.

(* ================================================================= *)
(** * Clearing *)
(* ================================================================= *)

(** A fulfilled [clearAllRecords] writes the default document with one call
    to the store and leaves the lock key alone (a lock that is held stays
    held); after it a read returns the default document and every
    deletion answers "Record not found". *)
Theorem clearAllRecords_resets w :
  fulfils 2 (oracle w) = true ->
  let w' := worldAfter clearAllRecords w in
  outcomeOf clearAllRecords w
  = Returned {| success := true; payload := Some tt; errorMessage := None |}
  /\ crm_extracted_data w' = Some DEFAULT_STORAGE_STATE
  /\ sync_lock_timestamp w' = sync_lock_timestamp w
  /\ effects w' = effects w ++ [StorageSet CRM_DATA true]
  /\ outcomeOf retrieveAllData w'
     = Returned {| success := true; payload := Some DEFAULT_STORAGE_STATE;
                   errorMessage := None |}
  /\ (forall entityType recordId,
        outcomeOf (removeRecord entityType recordId) w'
        = Returned {| success := false; payload := None;
                      errorMessage := Some "Record not found" |}).
Proof.
  intros Hf w'.
  assert (Hnone : rejection (answer 0 w) = None).
  { rewrite <- answer_0. apply fulfils_1_iff. eapply fulfils_1. exact Hf. }
  destruct (clearAllRecords_cases w) as [[_ Hrun]|(error & Hr & _)];
    [|congruence].
  assert (Hf' : fulfils 1 (oracle w') = true).
  { unfold w', worldAfter. rewrite Hrun. cbn [snd]. field_rw.
    apply fulfils_tl. exact Hf. }
  assert (Hd : crm_extracted_data w' = Some DEFAULT_STORAGE_STATE).
  { unfold w', worldAfter. rewrite Hrun. cbn [snd]. now field_rw. }
  split; [unfold outcomeOf; now rewrite Hrun|].
  split; [exact Hd|]. split; [|split; [|split]].
  - unfold w', worldAfter. rewrite Hrun. cbn [snd]. now field_rw.
  - unfold w', worldAfter. rewrite Hrun. cbn [snd]. now field_rw.
  - unfold outcomeOf. rewrite retrieveAllData_fulfilled by exact Hf'.
    now rewrite Hd.
  - intros entityType recordId. apply removeRecord_not_found; [|exact Hf'].
    rewrite Hd. now destruct entityType.
Qed.

Lemma clearAllRecords_resets_witness :
  fulfils 2 (oracle contendedWorld) = true
  /\ crm_extracted_data (worldAfter clearAllRecords contendedWorld)
     = Some DEFAULT_STORAGE_STATE
  /\ sync_lock_timestamp (worldAfter clearAllRecords contendedWorld)
     = Some 49000%Z.
Proof.
  pose proof (@clearAllRecords_resets contendedWorld eq_refl)
    as (_ & Hd & Hl & _).
  split; [reflexivity|]. split; [exact Hd | exact Hl].
Defined.
